(** * Finite-difference gradients and gradient descent (logic_functions.py)

    A shallow embedding of the numerical core of [logic_functions.py]:
    [numerical_derivative], [gradient_function], [gradient_descent] and
    [numerical_gradient], and of the element-wise [step_function],
    [relu_function] and [identity_function].

    - Numbers are IEEE-754 binary64 values (Rocq's primitive [float]), the
      arithmetic of Python's [float] and of numpy's [float64]; integer arrays
      hold [Z] values of numpy's [int64].  A number returned by the objective
      is a Python [float] or a [numpy.float64]: the two divide by zero
      differently.
    - numpy arrays are objects in a store; a routine receives and returns
      references, so that copies ([np.array], [x.copy()], [x + row]) and
      in-place writes ([x[idx] = v], [x -= v]) are told apart.
    - The objective [f] is a Python callable: it may read and write the
      array it is handed, keep state of its own, and raise.  Every
      evaluation is recorded in a trace. *)

From Stdlib Require Import ZArith Floats Lia.
From stdpp Require Import base list.

#[local] Set Warnings "-inexact-float".

(** ** Exceptions *)

Inductive exn :=
| TypeError            (* len() of unsized object *)
| ValueError           (* np.nditer on a zero-sized operand; int(nan) *)
| OverflowError        (* int(inf); a Python int that does not fit int64 *)
| IndexError
| ZeroDivisionError
| ReferenceError       (* a reference outside the store *)
| ObjectiveError (code : nat).   (* whatever the objective raises *)

Inductive outcome (A : Type) :=
| Ret (a : A)
| Raise (e : exn).
Arguments Ret {A} a.
Arguments Raise {A} e.

Definition returned {A} (r : outcome A) : Prop :=
  match r with Ret _ => True | Raise _ => False end.

(** ** Numbers *)

Module Num.

Definition int64_min : Z := (- 2 ^ 63)%Z.
Definition int64_max : Z := (2 ^ 63 - 1)%Z.

(** [float(z)] of an int64: the nearest binary64 value. *)
Definition int64_to_float (z : Z) : float :=
  SF2Prim (binary_normalize prec emax z 0 false).

(** [int(x)] of a finite float: the fraction is dropped (rounding toward
    zero). *)
Definition trunc (x : float) : Z :=
  match Prim2SF x with
  | S754_finite s m e =>
      let a := Z.shiftl (Z.pos m) e in
      if s then (- a)%Z else a
  | _ => 0%Z
  end.

(** Storing a float into an int64 slot goes through [int(x)]: it raises
    [ValueError] for nan and [OverflowError] for an infinity, and the
    integer must fit int64, else [OverflowError]. *)
Definition float_to_int64 (x : float) : outcome Z :=
  match Prim2SF x with
  | S754_nan => Raise ValueError
  | S754_infinity _ => Raise OverflowError
  | _ =>
      let v := trunc x in
      if (int64_min <=? v)%Z && (v <=? int64_max)%Z then Ret v
      else Raise OverflowError
  end.

Definition is_zero (x : float) : bool := PrimFloat.eqb x 0.

End Num.

(** What an objective returns: a Python [float] or a [numpy.float64].  Both
    hold a binary64 value; a Python float divided by zero raises, a
    [numpy.float64] divided by zero is an infinity or nan. *)
Inductive kind := PythonFloat | NumpyFloat64.

Record number := mk_number { kind_of : kind; value : float }.

(** [a - b]: a Python float when both are, else a [numpy.float64]. *)
Definition num_sub (a b : number) : number :=
  mk_number
    match kind_of a, kind_of b with
    | PythonFloat, PythonFloat => PythonFloat
    | _, _ => NumpyFloat64
    end
    (PrimFloat.sub (value a) (value b)).

Definition outcome_value (r : outcome number) : outcome float :=
  match r with Ret n => Ret (value n) | Raise e => Raise e end.

(** ** numpy arrays *)

Inductive buffer :=
| Float64 (d : list float)
| Int64 (d : list Z).

(** An array keeps its elements in traversal order.  [zero_dim] marks a 0-d
    array ([np.array(0.0)]): it has one element and no [len]. *)
Record ndarray := mk_ndarray { zero_dim : bool; buf : buffer }.

(** The value [x[idx]] read out of an array: a numpy scalar of its dtype. *)
Inductive scalar :=
| F64 (v : float)
| I64 (z : Z).

Definition vector (d : list float) : ndarray := mk_ndarray false (Float64 d).
Definition int_vector (d : list Z) : ndarray := mk_ndarray false (Int64 d).

Definition buf_size (b : buffer) : nat :=
  match b with Float64 d => length d | Int64 d => length d end.

Definition size (a : ndarray) : nat := buf_size (buf a).


(** [astype(float)] on the elements. *)
Definition as_float (b : buffer) : list float :=
  match b with
  | Float64 d => d
  | Int64 d => map Num.int64_to_float d
  end.

(** [np.array(a, dtype=float)]: a float64 copy of the same shape. *)
Definition np_array_float (a : ndarray) : ndarray :=
  mk_ndarray (zero_dim a) (Float64 (as_float (buf a))).

(** [np.zeros_like(a)]: zeros of the shape and dtype of [a]. *)
Definition np_zeros_like (a : ndarray) : ndarray :=
  mk_ndarray (zero_dim a)
    match buf a with
    | Float64 d => Float64 (replicate (length d) 0%float)
    | Int64 d => Int64 (replicate (length d) 0%Z)
    end.

(** Row [i] of [np.eye(n)]. *)
Definition eye_row (n i : nat) : list float :=
  map (fun j => if Nat.eqb i j then 1%float else 0%float) (seq 0 n).

(** [np.eye(n) * h]: every entry of the identity matrix times [h]. *)
Definition np_eye_times (n : nat) (h : float) : list (list float) :=
  map (fun i => map (fun e => PrimFloat.mul e h) (eye_row n i)) (seq 0 n).

(** [perturb[i]] for [i] in [range(n)]. *)
Definition row (perturb : list (list float)) (i : nat) : list float :=
  default [] (perturb !! i).

(** [x + r] and [x - r] for a 1-d array and a row of the same length: a new
    float64 array. *)
Definition nd_add (a : ndarray) (r : list float) : ndarray :=
  vector (zip_with PrimFloat.add (as_float (buf a)) r).

Definition nd_sub (a : ndarray) (r : list float) : ndarray :=
  vector (zip_with PrimFloat.sub (as_float (buf a)) r).

(** [learning_rate * grad] (a new array), and the elements [x -= v] leaves in
    a float64 array [x]. *)
Definition nd_scale (c : float) (g : ndarray) : list float :=
  map (PrimFloat.mul c) (as_float (buf g)).

Definition nd_isub (a : ndarray) (v : list float) : ndarray :=
  mk_ndarray (zero_dim a) (Float64 (zip_with PrimFloat.sub (as_float (buf a)) v)).

(** [a[idx]] *)
Definition getitem (a : ndarray) (idx : nat) : option scalar :=
  match buf a with
  | Float64 d => F64 <$> d !! idx
  | Int64 d => I64 <$> d !! idx
  end.

(** [a[idx] = v] for a float [v]: the write goes through the dtype of [a];
    into an integer array it raises when the conversion of [v] does. *)
Definition setitem_float (a : ndarray) (idx : nat) (v : float) : outcome ndarray :=
  match buf a with
  | Float64 d => Ret (mk_ndarray (zero_dim a) (Float64 (<[idx := v]> d)))
  | Int64 d =>
      match Num.float_to_int64 v with
      | Ret z => Ret (mk_ndarray (zero_dim a) (Int64 (<[idx := z]> d)))
      | Raise e => Raise e
      end
  end.

(** [a[idx] = v] for a numpy scalar [v]. *)
Definition setitem (a : ndarray) (idx : nat) (v : scalar) : outcome ndarray :=
  match v, buf a with
  | I64 z, Int64 d => Ret (mk_ndarray (zero_dim a) (Int64 (<[idx := z]> d)))
  | I64 z, Float64 _ => setitem_float a idx (Num.int64_to_float z)
  | F64 x, _ => setitem_float a idx x
  end.

(** [float(v)] and [v - h] for a numpy scalar [v] and a Python float [h]. *)
Definition scalar_float (v : scalar) : float :=
  match v with F64 x => x | I64 z => Num.int64_to_float z end.

Definition scalar_sub (v : scalar) (h : float) : float :=
  PrimFloat.sub (scalar_float v) h.

(** ** The store and the evaluation trace *)

Definition loc := nat.

(** An evaluation of the objective: what it was given, and the value it
    returned or the exception it raised. *)
Inductive argument :=
| AFloat (x : float)
| AArray (a : ndarray).

Record evaluation := mk_evaluation { ev_arg : argument; ev_res : outcome float }.

Section Routines.

(** The objective's own mutable state (closure variables, counters, a
    random generator). *)
Context {W : Type}.

Record state := mk_state {
  heap : list ndarray;
  world : W;
  trace : list evaluation
}.

Definition M (A : Type) : Type := state -> outcome A * state.

Definition ret {A} (a : A) : M A := fun s => (Ret a, s).

Definition raise {A} (e : exn) : M A := fun s => (Raise e, s).

Definition bind {A B} (m : M A) (k : A -> M B) : M B :=
  fun s =>
    match m s with
    | (Ret a, s') => k a s'
    | (Raise e, s') => (Raise e, s')
    end.

Notation "'let!' x ':=' m 'in' k" := (bind m (fun x => k))
  (at level 10, x pattern, m at level 100, k at level 200).

(** A new array object. *)
Definition alloc (a : ndarray) : M loc :=
  fun s => (Ret (length (heap s)),
            mk_state (heap s ++ [a]) (world s) (trace s)).

Definition load (l : loc) : M ndarray :=
  fun s =>
    match heap s !! l with
    | Some a => (Ret a, s)
    | None => (Raise ReferenceError, s)
    end.

Definition store (l : loc) (a : ndarray) : M unit :=
  fun s =>
    if decide (l < length (heap s))
    then (Ret tt, mk_state (<[l := a]> (heap s)) (world s) (trace s))
    else (Raise ReferenceError, s).

(** An objective taking an array works on the object it is handed: it sees
    the elements, may change them, may change its own state, and returns a
    number or raises. *)
Definition objective : Type := ndarray -> W -> outcome number * ndarray * W.

(** An objective of one real variable, on Python floats. *)
Definition scalar_objective : Type := float -> W -> outcome number * W.

(** [f(x)] for the array at [l]. *)
Definition call (f : objective) (l : loc) : M number :=
  fun s =>
    match heap s !! l with
    | Some a =>
        let '(r, a', w') := f a (world s) in
        (r, mk_state (<[l := a']> (heap s)) w'
              (trace s ++ [mk_evaluation (AArray a) (outcome_value r)]))
    | None => (Raise ReferenceError, s)
    end.

(** [f(x)] for a Python float [x]. *)
Definition call_scalar (f : scalar_objective) (x : float) : M number :=
  fun s =>
    let '(r, w') := f x (world s) in
    (r, mk_state (heap s) w'
          (trace s ++ [mk_evaluation (AFloat x) (outcome_value r)])).

(** [len(x)] *)
Definition len (l : loc) : M nat :=
  let! a := load l in
  if zero_dim a then raise TypeError else ret (size a).

(** [x[idx]] *)
Definition load_item (l : loc) (idx : nat) : M scalar :=
  let! a := load l in
  match getitem a idx with
  | Some v => ret v
  | None => raise IndexError
  end.

(** [x[idx] = v] *)
Definition store_item_float (l : loc) (idx : nat) (v : float) : M unit :=
  let! a := load l in
  if decide (idx < size a) then
    match setitem_float a idx v with
    | Ret a' => store l a'
    | Raise e => raise e
    end
  else raise IndexError.

Definition store_item (l : loc) (idx : nat) (v : scalar) : M unit :=
  let! a := load l in
  if decide (idx < size a) then
    match setitem a idx v with
    | Ret a' => store l a'
    | Raise e => raise e
    end
  else raise IndexError.

(** [for a in l: acc = body(a, acc)] *)
Fixpoint for_each {A B} (l : list A) (body : A -> B -> M B) (acc : B) : M B :=
  match l with
  | [] => ret acc
  | a :: l' => let! acc' := body a acc in for_each l' body acc'
  end.

(** [a / b] for a number [a] and a Python float [b] (the step [h] is a
    Python float, and so is [2 * h]): between Python floats a zero divisor
    raises; a [numpy.float64] is divided as IEEE-754 says (numpy only
    warns). *)
Definition truediv (a : number) (b : float) : M float :=
  match kind_of a with
  | PythonFloat =>
      if Num.is_zero b then raise ZeroDivisionError
      else ret (PrimFloat.div (value a) b)
  | NumpyFloat64 => ret (PrimFloat.div (value a) b)
  end.

(** *** numerical_derivative *)

Definition numerical_derivative
    (f : scalar_objective) (x : float) (h : option float) : M float :=
  let h := default 1e-5%float h in
  let! fxh1 := call_scalar f (PrimFloat.add x h) in
  let! fxh2 := call_scalar f (PrimFloat.sub x h) in
  truediv (num_sub fxh1 fxh2) (PrimFloat.mul 2 h).

(** *** gradient_function *)

Definition gradient_function
    (f : objective) (x : loc) (h : option float) : M loc :=
  let h := default 1e-5%float h in
  let! a := load x in
  let! x := alloc (np_array_float a) in
  let! a := load x in
  let! grad := alloc (np_zeros_like a) in
  let! n := len x in
  let perturb := np_eye_times n h in
  let! _ := for_each (seq 0 n) (fun i _ =>
    let! a := load x in
    let! xh1 := alloc (nd_add a (row perturb i)) in
    let! fxh1 := call f xh1 in
    let! a := load x in
    let! xh2 := alloc (nd_sub a (row perturb i)) in
    let! fxh2 := call f xh2 in
    let! q := truediv (num_sub fxh1 fxh2) (PrimFloat.mul 2 h) in
    store_item_float grad i q) tt in
  ret grad.

(** *** gradient_descent *)

Definition gradient_descent
    (f : objective) (init_x : loc)
    (learning_rate : option float) (num_iterations : option nat)
    : M (loc * list loc) :=
  let learning_rate := default 0.1%float learning_rate in
  let num_iterations := default 100 num_iterations in
  let! a := load init_x in
  let! x := alloc (np_array_float a) in
  let! a := load x in
  let! x0 := alloc a in
  let! x_history := for_each (seq 0 num_iterations) (fun _ x_history =>
    let! grad := gradient_function f x None in
    let! g := load grad in
    let! a := load x in
    let! _ := store x (nd_isub a (nd_scale learning_rate g)) in
    let! a := load x in
    let! xk := alloc a in
    ret (x_history ++ [xk])) [x0] in
  ret (x, x_history).

(** *** numerical_gradient *)

Definition numerical_gradient (f : objective) (x : loc) : M loc :=
  let h := 1e-4%float in
  let! a := load x in
  let! grad := alloc (np_zeros_like a) in
  (* np.nditer refuses a zero-sized operand *)
  let! _ := (if decide (size a = 0) then raise ValueError else ret tt) in
  let! _ := for_each (seq 0 (size a)) (fun idx _ =>
    let! tmp_val := load_item x idx in
    let! _ := store_item_float x idx (PrimFloat.add (scalar_float tmp_val) h) in
    let! fxh1 := call f x in
    let! _ := store_item_float x idx (scalar_sub tmp_val h) in
    let! fxh2 := call f x in
    let! q := truediv (num_sub fxh1 fxh2) (PrimFloat.mul 2 h) in
    let! _ := store_item_float grad idx q in
    store_item x idx tmp_val) tt in
  ret grad.

End Routines.

Arguments state : clear implicits.
Arguments M : clear implicits.
Arguments objective : clear implicits.
Arguments scalar_objective : clear implicits.


Notation "'let!' x ':=' m 'in' k" := (bind m (fun x => k))
  (at level 10, x pattern, m at level 100, k at level 200).

(** ** The activation functions *)


Definition is_finite_value (v : float) : bool :=
  match Prim2SF v with S754_nan | S754_infinity _ => false | _ => true end.

(** Finite and not negative, [+0.0] included and [-0.0] not. *)
Definition is_finite_nonneg (v : float) : bool :=
  match Prim2SF v with
  | S754_zero false | S754_finite false _ _ => true
  | _ => false
  end.

(** [(x > 0).astype(int)], element by element: a comparison with nan is
    false.  (For a 0-d input numpy hands back a scalar of the element type,
    an object with one element and no [len]: what [zero_dim] records.) *)
Definition np_greater_zero_int (a : ndarray) : ndarray :=
  mk_ndarray (zero_dim a)
    (Int64
       match buf a with
       | Float64 d => map (fun v => if PrimFloat.ltb 0 v then 1%Z else 0%Z) d
       | Int64 d => map (fun z => if (0 <? z)%Z then 1%Z else 0%Z) d
       end).

(** One element of [np.maximum(0, x)] on float64: a negative element gives
    the [0.0] of the first operand; every other element is kept, so a nan
    stays nan and a zero keeps its sign. *)
Definition fmax_zero (v : float) : float :=
  if PrimFloat.ltb v 0 then 0%float else v.

(** [np.maximum(0, x)]: the dtype of [x] is kept. *)
Definition np_maximum_zero (a : ndarray) : ndarray :=
  mk_ndarray (zero_dim a)
    match buf a with
    | Float64 d => Float64 (map fmax_zero d)
    | Int64 d => Int64 (map (Z.max 0) d)
    end.

Section Activations.

Context {W : Type}.

(** *** step_function *)

Definition step_function (x : loc) : M W loc :=
  let! a := load x in
  alloc (np_greater_zero_int a).

(** *** relu_function *)

Definition relu_function (x : loc) : M W loc :=
  let! a := load x in
  alloc (np_maximum_zero a).

(** *** identity_function *)

Definition identity_function (x : loc) : M W loc := ret x.

End Activations.

(** ** What the routines are specified against *)

(** An objective that is a function of the elements of its argument: it
    returns, changes nothing and keeps no state.  Its results are numbers of
    the kind [k]. *)
Definition function_objective {W} (k : kind) (fm : ndarray -> float) : objective W :=
  fun a w => (Ret (mk_number k (fm a)), a, w).

Definition function_scalar {W} (k : kind) (fm : float -> float) : scalar_objective W :=
  fun x w => (Ret (mk_number k (fm x)), w).

(** A function of an array computed with numpy returns a [numpy.float64]; a
    function of a Python float computed with Python's arithmetic returns a
    Python float. *)
Definition pure_objective {W} (fm : ndarray -> float) : objective W :=
  function_objective NumpyFloat64 fm.

Definition pure_scalar {W} (fm : float -> float) : scalar_objective W :=
  function_scalar PythonFloat fm.

(** [h * e_i] in dimension [n], and the two points [x + h e_i], [x - h e_i]. *)
Definition basis_times (n : nat) (h : float) (i : nat) : list float :=
  map (fun e => PrimFloat.mul e h) (eye_row n i).

Definition shift_plus (x : list float) (h : float) (i : nat) : list float :=
  zip_with PrimFloat.add x (basis_times (length x) h i).

Definition shift_minus (x : list float) (h : float) (i : nat) : list float :=
  zip_with PrimFloat.sub x (basis_times (length x) h i).

(** [(f(x + h e_i) - f(x - h e_i)) / (2h)] *)
Definition central_difference
    (fm : ndarray -> float) (x : list float) (h : float) (i : nat) : float :=
  PrimFloat.div
    (PrimFloat.sub (fm (vector (shift_plus x h i))) (fm (vector (shift_minus x h i))))
    (PrimFloat.mul 2 h).

Definition central_difference_gradient
    (fm : ndarray -> float) (x : list float) (h : float) : list float :=
  map (central_difference fm x h) (seq 0 (length x)).

(** A gradient in the making: the first [i] components are computed. *)
Definition partial_gradient
    (fm : ndarray -> float) (d : list float) (h : float) (i : nat) (G : list float) : Prop :=
  length G = length d /\
  forall j, j < i -> G !! j = Some (central_difference fm d h j).

(** The evaluations a central-difference gradient at [x] asks for, in order. *)
Definition evaluations_at
    (fm : ndarray -> float) (x : list float) (h : float) (i : nat) : list evaluation :=
  [ mk_evaluation (AArray (vector (shift_plus x h i)))
      (Ret (fm (vector (shift_plus x h i))));
    mk_evaluation (AArray (vector (shift_minus x h i)))
      (Ret (fm (vector (shift_minus x h i)))) ].

Definition gradient_evaluations
    (fm : ndarray -> float) (x : list float) (h : float) : list evaluation :=
  flat_map (evaluations_at fm x h) (seq 0 (length x)).

(** One update [x - alpha * g]. *)
Definition descent_update (alpha : float) (x g : list float) : list float :=
  zip_with PrimFloat.sub x (map (PrimFloat.mul alpha) g).

(** The update with the central-difference gradient of step [h]. *)
Definition descent_step
    (fm : ndarray -> float) (alpha h : float) (x : list float) : list float :=
  descent_update alpha x (central_difference_gradient fm x h).

(** The point after [k] updates. *)
Fixpoint descent_iterate
    (fm : ndarray -> float) (alpha h : float) (k : nat) (x : list float) : list float :=
  match k with
  | O => x
  | S k' => descent_step fm alpha h (descent_iterate fm alpha h k' x)
  end.

(** The evaluations of a whole descent of [n] updates from [x]. *)
Definition descent_evaluations
    (fm : ndarray -> float) (alpha h : float) (n : nat) (x : list float) : list evaluation :=
  flat_map (fun k => gradient_evaluations fm (descent_iterate fm alpha h k x) h) (seq 0 n).

(** The optimizer's store after [k] updates: the objects of the caller (below
    [n0]) are as in [pre], the working point sits at [n0] and holds the
    [k]-th point, and [hist] names [k + 1] distinct objects, none of them the
    working point, that hold the points [0 .. k]. *)
Definition descent_inv
    (n0 : nat) (pre : list ndarray) (pts : nat -> list float) (k : nat)
    (hp : list ndarray) (hist : list loc) : Prop :=
  n0 < length hp /\
  (forall l, l < n0 -> hp !! l = pre !! l) /\
  hp !! n0 = Some (vector (pts k)) /\
  length hist = S k /\
  (forall j, j <= k -> exists l, hist !! j = Some l /\ hp !! l = Some (vector (pts j))) /\
  Forall (fun l => n0 < l < length hp) hist /\
  NoDup hist.

(** The two objects [numerical_gradient] works on: the array at [x] and the
    gradient at [g]. *)
Definition two_cells {W} (t : state W) (x : loc) (ax : ndarray) (g : loc) (ag : ndarray) : Prop :=
  heap t !! x = Some ax /\ heap t !! g = Some ag.

(** The component [numerical_gradient] stores at a position where the
    function saw the arrays [up] and [down]. *)
Definition difference_1e_4 (fm : ndarray -> float) (up down : ndarray) : float :=
  PrimFloat.div (PrimFloat.sub (fm up) (fm down)) (PrimFloat.mul 2 1e-4%float).

(** The two evaluations made at one position. *)
Definition evaluations_on (fm : ndarray -> float) (up down : ndarray) : list evaluation :=
  [ mk_evaluation (AArray up) (Ret (fm up));
    mk_evaluation (AArray down) (Ret (fm down)) ].

(** A list of [n] zeros whose positions [0 .. i-1] have been set to [q]. *)
Definition filled {A} (zero : A) (q : nat -> A) (n i : nat) : list A :=
  fold_left (fun G idx => <[idx := q idx]> G) (seq 0 i) (replicate n zero).

(** A float array with the entry at [idx] moved up, or down, by [h]. *)
Definition moved_up (d : list float) (h : float) (idx : nat) : list float :=
  <[idx := PrimFloat.add (default 0%float (d !! idx)) h]> d.

Definition moved_down (d : list float) (h : float) (idx : nat) : list float :=
  <[idx := PrimFloat.sub (default 0%float (d !! idx)) h]> d.

(** [numerical_gradient] stopped by the objective on the float array of
    elements [d]: the array at [x] is that array with one element moved by
    [1e-4], and it is the array of the last evaluation, which raised [e]. *)
Definition interrupted_at {W}
    (x : loc) (zd : bool) (d : list float) (e : exn) (t : state W) : Prop :=
  exists idx b,
    idx < length d /\
    (b = mk_ndarray zd (Float64 (moved_up d 1e-4%float idx)) \/
     b = mk_ndarray zd (Float64 (moved_down d 1e-4%float idx))) /\
    heap t !! x = Some b /\
    last (trace t) = Some (mk_evaluation (AArray b) (Raise e)).

(** [v > 0] for a numpy scalar. *)
Definition scalar_positive (v : scalar) : bool :=
  match v with
  | F64 x => PrimFloat.ltb 0 x
  | I64 z => (0 <? z)%Z
  end.




(** ** Concrete objectives and stores *)

Module Examples.

(** [f(x) = x ** 2] on a float. *)
Definition square : float -> float := fun x => PrimFloat.mul x x.

(** [f(x) = (x[0] - 2) ** 2], the square taken as a product. *)
Definition quadratic : ndarray -> float := fun a =>
  match as_float (buf a) with
  | x :: _ => PrimFloat.mul (PrimFloat.sub x 2) (PrimFloat.sub x 2)
  | [] => nan
  end.

(** [f(x) = sum(x[i] ** 2)], summed from the left. *)
Definition sum_of_squares : ndarray -> float := fun a =>
  fold_left (fun acc x => PrimFloat.add acc (PrimFloat.mul x x))
    (as_float (buf a)) 0%float.

(** [f(x) = x[0]] *)
Definition first_element : ndarray -> float := fun a =>
  match as_float (buf a) with
  | x :: _ => x
  | [] => nan
  end.

(** An objective that raises whenever it is called. *)
Definition failing : objective unit := fun a w => (Raise (ObjectiveError 7), a, w).

(** An objective that counts its calls and raises on the second one. *)
Definition fails_second : objective nat := fun a n =>
  if Nat.eqb n 1 then (Raise (ObjectiveError 7), a, S n)
  else (Ret (mk_number NumpyFloat64 (sum_of_squares a)), a, S n).

(** A store holding the single array [a], at reference [0]. *)
Definition store_of {W} (a : ndarray) (w : W) : state W := mk_state [a] w [].

End Examples.

(** ** Reasoning about runs *)

(** [wp m Q E s]: from [s], [m] either returns [a] in a state satisfying
    [Q a] or raises [e] in a state satisfying [E e]. *)
Definition wp {W A} (m : M W A)
    (Q : A -> state W -> Prop) (E : exn -> state W -> Prop) (s : state W) : Prop :=
  match m s with
  | (Ret a, s') => Q a s'
  | (Raise e, s') => E e s'
  end.

(** The part of the store below [n] is as in [s0]. *)
Definition frame {W} (n : nat) (s0 s : state W) : Prop :=
  n <= length (heap s) /\ forall l, l < n -> heap s !! l = heap s0 !! l.

(** [m] writes only at references [>= n] and returns values satisfying [P]. *)
Definition above {W A} (n : nat) (m : M W A) (P : A -> Prop) : Prop :=
  forall s0 s, frame n s0 s ->
    frame n s0 (m s).2 /\ forall a, (m s).1 = Ret a -> P a.

Definition ev_returned (ev : evaluation) : Prop := returned (ev_res ev).

(** The evaluations [evs] of a call whose outcome is [r]: either all of them
    returned, or the last one raised, that exception is the outcome, and all
    before it returned. *)
Definition aborts_at {A} (r : outcome A) (evs : list evaluation) : Prop :=
  Forall ev_returned evs \/
  exists evs0 a e,
    evs = evs0 ++ [mk_evaluation a (Raise e)] /\
    Forall ev_returned evs0 /\ r = Raise e.

Definition propagates {W A} (m : M W A) : Prop :=
  forall s, exists evs,
    trace (m s).2 = trace s ++ evs /\ aborts_at (m s).1 evs.

(** * Proofs *)

Section WpRules.

Context {W : Type}.
Implicit Types (s : state W) (l : loc) (a : ndarray).

Lemma wp_ret {A} (x : A) Q E s : Q x s -> wp (ret x) Q E s.
Proof. done. Qed.

Lemma wp_raise {A} e (Q : A -> state W -> Prop) E s : E e s -> wp (raise e) Q E s.
Proof. done. Qed.

Lemma wp_bind {A B} (m : M W A) (k : A -> M W B) Q E s :
  wp m (fun x s' => wp (k x) Q E s') E s -> wp (bind m k) Q E s.
Proof. unfold wp, bind. by destruct (m s) as [[x|e] s']. Qed.

Lemma wp_mono {A} (m : M W A) (Q Q' : A -> state W -> Prop) (E E' : exn -> state W -> Prop) s :
  wp m Q E s ->
  (forall x s', Q x s' -> Q' x s') -> (forall e s', E e s' -> E' e s') ->
  wp m Q' E' s.
Proof. unfold wp. destruct (m s) as [[x|e] s']; auto. Qed.

Lemma wp_run {A} (m : M W A) s (x : A) s' :
  wp m (fun y t => y = x /\ t = s') (fun _ _ => False) s -> m s = (Ret x, s').
Proof. unfold wp. destruct (m s) as [[y|e] t]; [by intros [-> ->] | done]. Qed.


Lemma wp_alloc a Q E s :
  Q (length (heap s)) (mk_state (heap s ++ [a]) (world s) (trace s)) ->
  wp (alloc a) Q E s.
Proof. done. Qed.

Lemma wp_load l a Q E s : heap s !! l = Some a -> Q a s -> wp (load l) Q E s.
Proof. unfold wp, load. by intros ->. Qed.

Lemma wp_store l a Q E s :
  l < length (heap s) ->
  Q tt (mk_state (<[l := a]> (heap s)) (world s) (trace s)) ->
  wp (store l a) Q E s.
Proof. unfold wp, store. intros Hl. by rewrite decide_True. Qed.

Lemma wp_call (f : objective W) l a Q E s :
  heap s !! l = Some a ->
  (forall r a' w', f a (world s) = (r, a', w') ->
     let s' := mk_state (<[l := a']> (heap s)) w'
                 (trace s ++ [mk_evaluation (AArray a) (outcome_value r)]) in
     match r with Ret v => Q v s' | Raise e => E e s' end) ->
  wp (call f l) Q E s.
Proof.
  unfold wp, call. intros -> H.
  destruct (f a (world s)) as [[r a'] w'] eqn:Hf. by apply (H r a' w').
Qed.

Lemma wp_call_function (k : kind) (fm : ndarray -> float) l a Q E s :
  heap s !! l = Some a ->
  Q (mk_number k (fm a))
    (mk_state (heap s) (world s)
       (trace s ++ [mk_evaluation (AArray a) (Ret (fm a))])) ->
  wp (call (function_objective k fm) l) Q E s.
Proof.
  intros Hl HQ. eapply wp_call; [done|].
  intros r a' w' [= <- <- <-]. simpl. by rewrite list_insert_id.
Qed.

(** A division returns when the dividend is a [numpy.float64] or the
    divisor is not zero. *)
Lemma wp_truediv (a : number) (b : float) Q E s :
  kind_of a = NumpyFloat64 \/ Num.is_zero b = false ->
  Q (PrimFloat.div (value a) b) s ->
  wp (truediv a b) Q E s.
Proof.
  intros Hab HQ. unfold truediv.
  destruct (kind_of a); [|by apply wp_ret].
  destruct Hab as [Hk| ->]; [done | by apply wp_ret].
Qed.

Lemma wp_truediv_zero (a : number) (b : float) (Q : float -> state W -> Prop) E s :
  kind_of a = PythonFloat -> Num.is_zero b = true ->
  E ZeroDivisionError s ->
  wp (truediv a b) Q E s.
Proof. intros Hk Hb HE. unfold truediv. rewrite Hk, Hb. by apply wp_raise. Qed.

Lemma wp_len l a Q E s :
  heap s !! l = Some a ->
  (if zero_dim a then E TypeError s else Q (size a) s) ->
  wp (len l) Q E s.
Proof.
  intros Hl H. apply wp_bind. eapply wp_load; [done|].
  destruct (zero_dim a); [by apply wp_raise | by apply wp_ret].
Qed.

Lemma wp_load_item l a idx v Q E s :
  heap s !! l = Some a -> getitem a idx = Some v -> Q v s ->
  wp (load_item l idx) Q E s.
Proof.
  intros Hl Hv H. apply wp_bind. eapply wp_load; [done|].
  rewrite Hv. by apply wp_ret.
Qed.

Lemma wp_store_item_float l a idx v Q E s :
  heap s !! l = Some a -> idx < size a ->
  match setitem_float a idx v with
  | Ret a' => Q tt (mk_state (<[l := a']> (heap s)) (world s) (trace s))
  | Raise e => E e s
  end ->
  wp (store_item_float l idx v) Q E s.
Proof.
  intros Hl Hi H. apply wp_bind. eapply wp_load; [done|].
  rewrite decide_True by done.
  destruct (setitem_float a idx v) as [a'|e]; [|by apply wp_raise].
  apply wp_store; [|done]. by eapply lookup_lt_Some.
Qed.

(** A store into a float array does not raise. *)
Lemma wp_store_item_float64 l zd d idx v Q E s :
  heap s !! l = Some (mk_ndarray zd (Float64 d)) -> idx < length d ->
  Q tt (mk_state (<[l := mk_ndarray zd (Float64 (<[idx := v]> d))]> (heap s))
          (world s) (trace s)) ->
  wp (store_item_float l idx v) Q E s.
Proof. intros Hl Hi H. by eapply wp_store_item_float. Qed.

Lemma wp_store_item l a idx v a' Q E s :
  heap s !! l = Some a -> idx < size a ->
  setitem a idx v = Ret a' ->
  Q tt (mk_state (<[l := a']> (heap s)) (world s) (trace s)) ->
  wp (store_item l idx v) Q E s.
Proof.
  intros Hl Hi Ha H. apply wp_bind. eapply wp_load; [done|].
  rewrite decide_True by done. rewrite Ha. apply wp_store; [|done].
  by eapply lookup_lt_Some.
Qed.

(** The loop rule: the invariant [I] speaks of the items still to visit. *)
Lemma wp_for_each {A B} (I : list A -> B -> state W -> Prop)
    (body : A -> B -> M W B) Q E (xs : list A) acc s :
  I xs acc s ->
  (forall x rest b t, I (x :: rest) b t -> wp (body x b) (I rest) E t) ->
  (forall b t, I [] b t -> Q b t) ->
  wp (for_each xs body acc) Q E s.
Proof.
  intros HI Hbody Hend. revert acc s HI.
  induction xs as [|x xs IH]; intros acc s HI; simpl.
  - apply wp_ret. by apply Hend.
  - apply wp_bind. eapply wp_mono; [by apply Hbody | | done].
    intros b t Hb. by apply IH.
Qed.

End WpRules.

(** ** Writes stay above a mark *)

Section Frame.

Context {W : Type}.
Implicit Types (s : state W) (l : loc) (a : ndarray) (n : nat).

Lemma frame_refl s : frame (length (heap s)) s s.
Proof. by split. Qed.

Lemma frame_alloc n s0 s a :
  frame n s0 s -> frame n s0 (mk_state (heap s ++ [a]) (world s) (trace s)).
Proof.
  intros [Hn Hl]. split; simpl.
  - rewrite length_app. lia.
  - intros l Hlt. rewrite lookup_app_l by lia. by apply Hl.
Qed.

Lemma frame_insert n s0 s l a w tr :
  frame n s0 s -> n <= l -> frame n s0 (mk_state (<[l := a]> (heap s)) w tr).
Proof.
  intros [Hn Hl] Hle. split; simpl.
  - by rewrite length_insert.
  - intros l' Hlt. rewrite list_lookup_insert_ne by lia. by apply Hl.
Qed.

Lemma frame_world n s0 s w tr :
  frame n s0 s -> frame n s0 (mk_state (heap s) w tr).
Proof. by intros [Hn Hl]. Qed.

Lemma above_ret {A} n (x : A) (P : A -> Prop) : P x -> above n (ret (W:=W) x) P.
Proof. intros HP s0 s Hf. split; [done|]. by intros ? [= <-]. Qed.

Lemma above_raise {A} n e (P : A -> Prop) : above n (raise (W:=W) e) P.
Proof. intros s0 s Hf. by split. Qed.

Lemma above_bind {A B} n (m : M W A) (k : A -> M W B) P Q :
  above n m P -> (forall x, P x -> above n (k x) Q) -> above n (bind m k) Q.
Proof.
  intros Hm Hk s0 s Hf. destruct (Hm s0 s Hf) as [Hf' HP].
  unfold bind. destruct (m s) as [[x|e] s']; simpl in *.
  - by apply Hk; [apply HP|].
  - by split.
Qed.

Lemma above_weaken {A} n (m : M W A) (P P' : A -> Prop) :
  above n m P -> (forall x, P x -> P' x) -> above n m P'.
Proof.
  intros Hm HP s0 s Hf. destruct (Hm s0 s Hf) as [Hf' H]. split; auto.
Qed.

Lemma above_load n l : above n (load (W:=W) l) (fun _ => True).
Proof.
  intros s0 s Hf. unfold load. by destruct (heap s !! l).
Qed.

Lemma above_alloc n a : above n (alloc (W:=W) a) (fun l => n <= l).
Proof.
  intros s0 s Hf. split; simpl.
  - by apply frame_alloc.
  - intros ? [= <-]. apply Hf.
Qed.

Lemma above_store n l a : n <= l -> above n (store (W:=W) l a) (fun _ => True).
Proof.
  intros Hle s0 s Hf. unfold store. case_decide; simpl; [|done].
  split; [|done]. by apply frame_insert.
Qed.

Lemma above_call n (f : objective W) l : n <= l -> above n (call f l) (fun _ => True).
Proof.
  intros Hle s0 s Hf. unfold call. destruct (heap s !! l) as [a|]; [|done].
  destruct (f a (world s)) as [[r a'] w']. simpl.
  split; [|done]. by apply frame_insert.
Qed.

Lemma above_call_scalar n (f : scalar_objective W) x :
  above n (call_scalar f x) (fun _ => True).
Proof.
  intros s0 s Hf. unfold call_scalar. destruct (f x (world s)) as [r w'].
  split; [|done]. by apply frame_world.
Qed.

Lemma above_len n l : above n (len (W:=W) l) (fun _ => True).
Proof.
  eapply above_bind; [apply above_load|]. intros a _.
  destruct (zero_dim a); [apply above_raise | by apply above_ret].
Qed.

Lemma above_store_item_float n l idx v :
  n <= l -> above n (store_item_float (W:=W) l idx v) (fun _ => True).
Proof.
  intros Hle. eapply above_bind; [apply above_load|]. intros a _.
  case_decide; [|apply above_raise].
  destruct (setitem_float a idx v); [by apply above_store | apply above_raise].
Qed.

Lemma above_for_each {A B} n (I : B -> Prop) (body : A -> B -> M W B) xs acc :
  (forall x b, I b -> above n (body x b) I) -> I acc ->
  above n (for_each xs body acc) I.
Proof.
  intros Hbody. revert acc. induction xs as [|x xs IH]; intros acc Hacc; simpl.
  - by apply above_ret.
  - eapply above_bind; [by apply Hbody|]. intros b Hb. by apply IH.
Qed.

Lemma above_truediv n x y : above n (truediv (W:=W) x y) (fun _ => True).
Proof.
  unfold truediv. destruct (kind_of x); [|by apply above_ret].
  destruct (Num.is_zero y); [apply above_raise | by apply above_ret].
Qed.

Lemma above_numerical_derivative n (f : scalar_objective W) x h :
  above n (numerical_derivative f x h) (fun _ => True).
Proof.
  unfold numerical_derivative.
  eapply above_bind; [apply above_call_scalar|]. intros fxh1 _.
  eapply above_bind; [apply above_call_scalar|]. intros fxh2 _.
  apply above_truediv.
Qed.

Lemma above_gradient_function n (f : objective W) x h :
  above n (gradient_function f x h) (fun grad => n <= grad).
Proof.
  unfold gradient_function.
  eapply above_bind; [apply above_load|]. intros a _.
  eapply above_bind; [apply above_alloc|]. intros x' Hx'.
  eapply above_bind; [apply above_load|]. intros a' _.
  eapply above_bind; [apply above_alloc|]. intros grad Hgrad.
  eapply above_bind; [apply above_len|]. intros m _.
  eapply above_bind.
  - apply (above_for_each n (fun _ => True)); [|done]. intros i _ _.
    eapply above_bind; [apply above_load|]. intros a1 _.
    eapply above_bind; [apply above_alloc|]. intros xh1 Hxh1.
    eapply above_bind; [by apply above_call|]. intros fxh1 _.
    eapply above_bind; [apply above_load|]. intros a2 _.
    eapply above_bind; [apply above_alloc|]. intros xh2 Hxh2.
    eapply above_bind; [by apply above_call|]. intros fxh2 _.
    eapply above_bind; [apply above_truediv|]. intros q _.
    by apply above_store_item_float.
  - intros _ _. by apply above_ret.
Qed.

Lemma above_gradient_descent n (f : objective W) init_x lr num :
  above n (gradient_descent f init_x lr num)
    (fun r => n <= r.1 /\ Forall (fun l => n <= l) r.2).
Proof.
  unfold gradient_descent.
  eapply above_bind; [apply above_load|]. intros a _.
  eapply above_bind; [apply above_alloc|]. intros x Hx.
  eapply above_bind; [apply above_load|]. intros a' _.
  eapply above_bind; [apply above_alloc|]. intros x0 Hx0.
  eapply above_bind.
  - apply (above_for_each n (Forall (fun l => n <= l))).
    + intros _ hist Hhist.
      eapply above_bind; [apply above_gradient_function|]. intros grad _.
      eapply above_bind; [apply above_load|]. intros g _.
      eapply above_bind; [apply above_load|]. intros a1 _.
      eapply above_bind; [by apply above_store|]. intros _ _.
      eapply above_bind; [apply above_load|]. intros a2 _.
      eapply above_bind; [apply above_alloc|]. intros xk Hxk.
      apply above_ret. apply Forall_app. split; [done|]. by constructor.
    + by constructor.
  - intros hist Hhist. by apply above_ret.
Qed.

(** A routine that only writes above the top of the store leaves every
    object of the caller as it was. *)
Lemma above_untouched {A} (m : M W A) P s l :
  above (length (heap s)) m P -> l < length (heap s) ->
  heap (m s).2 !! l = heap s !! l.
Proof.
  intros Hm Hl. destruct (Hm s s (frame_refl s)) as [[_ H] _]. by apply H.
Qed.

End Frame.

(** ** A failing evaluation ends the call *)

Section Propagation.

Context {W : Type}.
Implicit Types (s : state W) (l : loc) (a : ndarray).

Lemma aborts_at_nil {A} (r : outcome A) : aborts_at r [].
Proof. left. constructor. Qed.

(** A step that evaluates nothing. *)
Lemma propagates_silent {A} (m : M W A) :
  (forall s, trace (m s).2 = trace s) -> propagates m.
Proof.
  intros H s. exists []. rewrite H, app_nil_r. split; [done | apply aborts_at_nil].
Qed.

Lemma propagates_ret {A} (x : A) : propagates (ret (W:=W) x).
Proof. by apply propagates_silent. Qed.

Lemma propagates_raise {A} e : propagates (raise (W:=W) (A:=A) e).
Proof. by apply propagates_silent. Qed.

Lemma propagates_load l : propagates (load (W:=W) l).
Proof. apply propagates_silent. intros s. unfold load. by destruct (heap s !! l). Qed.

Lemma propagates_alloc a : propagates (alloc (W:=W) a).
Proof. by apply propagates_silent. Qed.

Lemma propagates_store l a : propagates (store (W:=W) l a).
Proof. apply propagates_silent. intros s. unfold store. by case_decide. Qed.

Lemma propagates_bind {A B} (m : M W A) (k : A -> M W B) :
  propagates m -> (forall x, propagates (k x)) -> propagates (bind m k).
Proof.
  intros Hm Hk s. destruct (Hm s) as (evs & Htr & Hab).
  unfold bind. destruct (m s) as [[x|e] s1]; simpl in *.
  - destruct Hab as [Hall | (evs0 & a & e & _ & _ & [=])].
    destruct (Hk x s1) as (evs' & Htr' & Hab').
    exists (evs ++ evs'). split; [by rewrite Htr', Htr, app_assoc|].
    destruct Hab' as [Hall' | (evs0 & a & e & -> & Hall0 & Hr)].
    + left. by apply Forall_app.
    + right. exists (evs ++ evs0), a, e.
      split; [by rewrite app_assoc|]. split; [by apply Forall_app | done].
  - exists evs. split; [done|].
    destruct Hab as [Hall | (evs0 & a & e' & -> & Hall0 & Hr)]; [by left|].
    injection Hr as ->. right. exists evs0, a, e'. by repeat split.
Qed.

Lemma aborts_at_single {A} arg (r : outcome A) (r' : outcome float) :
  match r' with Ret _ => True | Raise e => r = Raise e end ->
  aborts_at r [mk_evaluation arg r'].
Proof.
  destruct r' as [v|e]; intros H.
  - left. by repeat constructor.
  - right. exists [], arg, e. by repeat split.
Qed.

Lemma propagates_call (f : objective W) l : propagates (call f l).
Proof.
  intros s. unfold call. destruct (heap s !! l) as [a|].
  - destruct (f a (world s)) as [[r a'] w']. simpl.
    exists [mk_evaluation (AArray a) (outcome_value r)]. split; [done|].
    apply aborts_at_single. by destruct r.
  - exists []. simpl. rewrite app_nil_r. split; [done | apply aborts_at_nil].
Qed.

Lemma propagates_call_scalar (f : scalar_objective W) x : propagates (call_scalar f x).
Proof.
  intros s. unfold call_scalar. destruct (f x (world s)) as [r w']. simpl.
  exists [mk_evaluation (AFloat x) (outcome_value r)]. split; [done|].
  apply aborts_at_single. by destruct r.
Qed.

Lemma propagates_len l : propagates (len (W:=W) l).
Proof.
  apply propagates_bind; [apply propagates_load|]. intros a.
  destruct (zero_dim a); [apply propagates_raise | apply propagates_ret].
Qed.

Lemma propagates_load_item l idx : propagates (load_item (W:=W) l idx).
Proof.
  apply propagates_bind; [apply propagates_load|]. intros a.
  destruct (getitem a idx); [apply propagates_ret | apply propagates_raise].
Qed.

Lemma propagates_store_item_float l idx v : propagates (store_item_float (W:=W) l idx v).
Proof.
  apply propagates_bind; [apply propagates_load|]. intros a.
  case_decide; [|apply propagates_raise].
  destruct (setitem_float a idx v); [apply propagates_store | apply propagates_raise].
Qed.

Lemma propagates_store_item l idx v : propagates (store_item (W:=W) l idx v).
Proof.
  apply propagates_bind; [apply propagates_load|]. intros a.
  case_decide; [|apply propagates_raise].
  destruct (setitem a idx v); [apply propagates_store | apply propagates_raise].
Qed.

Lemma propagates_for_each {A B} (body : A -> B -> M W B) xs acc :
  (forall x b, propagates (body x b)) -> propagates (for_each xs body acc).
Proof.
  intros Hbody. revert acc. induction xs as [|x xs IH]; intros acc; simpl.
  - apply propagates_ret.
  - apply propagates_bind; [apply Hbody | apply IH].
Qed.

Lemma propagates_truediv x y : propagates (truediv (W:=W) x y).
Proof.
  unfold truediv. destruct (kind_of x); [|apply propagates_ret].
  destruct (Num.is_zero y); [apply propagates_raise | apply propagates_ret].
Qed.

(** What [aborts_at] says about a failed evaluation found in the trace. *)
Lemma aborts_at_failed {A} (r : outcome A) evs ev e :
  aborts_at r evs -> ev ∈ evs -> ev_res ev = Raise e ->
  r = Raise e /\ last evs = Some ev /\
  forall ev', ev' ∈ removelast evs -> ev_returned ev'.
Proof.
  intros [Hall | (evs0 & a & e' & -> & Hall0 & ->)] Hin Hres.
  - rewrite Forall_forall in Hall. specialize (Hall ev Hin).
    unfold ev_returned in Hall. by rewrite Hres in Hall.
  - apply elem_of_app in Hin as [Hin | Hin].
    + rewrite Forall_forall in Hall0. specialize (Hall0 ev Hin).
      unfold ev_returned in Hall0. by rewrite Hres in Hall0.
    + apply list_elem_of_singleton in Hin as ->. simpl in Hres.
      injection Hres as ->. rewrite last_snoc, removelast_last.
      split; [done|]. split; [done|]. by apply Forall_forall.
Qed.

End Propagation.

Ltac propagate :=
  repeat first
    [ apply propagates_ret | apply propagates_raise | apply propagates_load
    | apply propagates_alloc | apply propagates_store | apply propagates_call
    | apply propagates_call_scalar | apply propagates_len
    | apply propagates_load_item | apply propagates_store_item_float
    | apply propagates_store_item | apply propagates_truediv
    | apply propagates_for_each; intros ? ?
    | apply propagates_bind; [|intros ?] ].

Lemma propagates_numerical_derivative {W} (f : scalar_objective W) x h :
  propagates (numerical_derivative f x h).
Proof. unfold numerical_derivative. propagate. Qed.

Lemma propagates_gradient_function {W} (f : objective W) x h :
  propagates (gradient_function f x h).
Proof. unfold gradient_function. propagate. Qed.

Lemma propagates_gradient_descent {W} (f : objective W) init_x lr num :
  propagates (gradient_descent f init_x lr num).
Proof.
  pose proof (propagates_gradient_function f) as Hg.
  unfold gradient_descent. repeat first [ apply Hg | progress propagate ].
Qed.

Lemma propagates_numerical_gradient {W} (f : objective W) x :
  propagates (numerical_gradient f x).
Proof. unfold numerical_gradient. propagate. case_decide; propagate. Qed.

(** Once an evaluation is in the trace it stays there, in its place. *)
Lemma wp_trace_prefix {W A} (m : M W A) (s : state W) (tr : list evaluation) :
  propagates m ->
  (exists evs, trace s = tr ++ evs) ->
  wp m (fun _ t => exists evs, trace t = tr ++ evs)
       (fun _ t => exists evs, trace t = tr ++ evs) s.
Proof.
  intros Hm [evs Hs]. destruct (Hm s) as (evs' & Htr & _).
  unfold wp. destruct (m s) as [[x|e] t]; simpl in *;
    exists (evs ++ evs'); by rewrite Htr, Hs, app_assoc.
Qed.

Lemma wp_bind_assoc {W A B C} (m : M W A) (k : A -> M W B) (k' : B -> M W C) Q E s :
  wp (bind m (fun x => bind (k x) k')) Q E s -> wp (bind (bind m k) k') Q E s.
Proof. unfold wp, bind. by destruct (m s) as [[x|e] s']. Qed.

(** ** Twice a float that is not zero is not zero *)

Lemma digits2_pos_shift52 m :
  Zdigits2 (Zpos (Pos.mul 4503599627370496 m)) = (Zpos (digits2_pos m) + 52)%Z.
Proof. cbv [Pos.mul Zdigits2 digits2_pos]. fold digits2_pos. lia. Qed.

(** In the specification of binary64: [2 * (m * 2^e)] is finite or infinite,
    for a normal number (53 digits, the product mantissa loses its 52 low
    zeros) and for a subnormal one (it loses 51 of them). *)
Lemma SF64mul_two_nonzero s m e :
  bounded prec emax m e = true ->
  SFeqb (SF64mul (S754_finite false 4503599627370496 (-51)) (S754_finite s m e))
        (S754_zero false) = false.
Proof.
  unfold bounded, canonical_mantissa, fexp, emin, prec, emax.
  intros Hb. apply andb_true_iff in Hb as [Hc He].
  apply Z.eqb_eq in Hc. apply Z.leb_le in He.
  set (D := Zpos (digits2_pos m)) in *.
  assert (HD : (1 <= D)%Z) by (unfold D; lia).
  unfold SF64mul, SFmul, binary_round_aux, shr_fexp.
  rewrite digits2_pos_shift52. fold D.
  unfold fexp, emin, prec, emax. cbn [xorb shr_record_of_loc].
  destruct (Z_lt_le_dec D 53) as [Hsub|Hnorm].
  - replace (Z.max (D + 52 + (-51 + e) - 53) (3 - 1024 - 53) - (-51 + e))%Z
      with 51%Z by lia.
    cbv [shr SpecFloat.iter_pos shr_1 Pos.mul orb shr_m loc_of_shr_record
         round_nearest_even shr_record_of_loc Zdigits2 digits2_pos].
    fold digits2_pos.
    match goal with
    | |- context [Z.sub (Z.max ?u ?v) ?w] =>
        replace (Z.sub (Z.max u v) w) with 0%Z by (unfold D in *; lia)
    end.
    cbv iota beta.
    match goal with |- context [Z.leb ?u ?v] => destruct (Z.leb u v) end;
      destruct s; reflexivity.
  - replace (Z.max (D + 52 + (-51 + e) - 53) (3 - 1024 - 53) - (-51 + e))%Z
      with 52%Z by lia.
    cbv [shr SpecFloat.iter_pos shr_1 Pos.mul orb shr_m loc_of_shr_record
         round_nearest_even shr_record_of_loc Zdigits2 digits2_pos].
    fold digits2_pos.
    match goal with
    | |- context [Z.sub (Z.max ?u ?v) ?w] =>
        replace (Z.sub (Z.max u v) w) with 0%Z by (unfold D in *; lia)
    end.
    cbv iota beta.
    match goal with |- context [Z.leb ?u ?v] => destruct (Z.leb u v) end;
      destruct s; reflexivity.
Qed.

Lemma is_zero_double (h : float) :
  Num.is_zero h = false -> Num.is_zero (PrimFloat.mul 2 h) = false.
Proof.
  unfold Num.is_zero. intros Hh.
  rewrite FloatAxioms.eqb_spec in Hh.
  rewrite FloatAxioms.eqb_spec, FloatAxioms.mul_spec.
  change (Prim2SF 0) with (S754_zero false) in *.
  change (Prim2SF 2) with (S754_finite false 4503599627370496 (-51)).
  pose proof (Prim2SF_valid h) as Hv.
  destruct (Prim2SF h) as [s|s| |s m e].
  - destruct s; discriminate Hh.
  - destruct s; reflexivity.
  - reflexivity.
  - by apply SF64mul_two_nonzero.
Qed.

(** ** Runs of [gradient_function] on an objective that is a function *)

Section StoreLayout.

Context {A : Type}.
Implicit Types (pre temps : list A) (xc g t : A).

Lemma layout_lookup_x pre xc g temps :
  (pre ++ xc :: g :: temps) !! length pre = Some xc.
Proof. by apply list_lookup_middle. Qed.

Lemma layout_lookup_g pre xc g temps :
  (pre ++ xc :: g :: temps) !! S (length pre) = Some g.
Proof. rewrite lookup_app_r by lia. by replace (S (length pre) - length pre) with 1 by lia. Qed.

Lemma layout_insert_g pre xc g g' temps :
  <[S (length pre) := g']> (pre ++ xc :: g :: temps) = pre ++ xc :: g' :: temps.
Proof.
  rewrite insert_app_r_alt by lia.
  by replace (S (length pre) - length pre) with 1 by lia.
Qed.


Lemma layout_snoc pre xc g temps t :
  (pre ++ xc :: g :: temps) ++ [t] = pre ++ xc :: g :: (temps ++ [t]).
Proof. by rewrite <- app_assoc. Qed.

Lemma lookup_snoc_last (L : list A) t : (L ++ [t]) !! length L = Some t.
Proof. by apply list_lookup_middle. Qed.

End StoreLayout.

Lemma row_np_eye_times n h i : i < n -> row (np_eye_times n h) i = basis_times n h i.
Proof.
  intros Hi. unfold row, np_eye_times.
  rewrite list_lookup_fmap, lookup_seq_lt by done. done.
Qed.


Lemma length_central_difference_gradient fm x h :
  length (central_difference_gradient fm x h) = length x.
Proof. unfold central_difference_gradient. by rewrite length_map, length_seq. Qed.

Lemma lookup_central_difference_gradient fm x h i :
  i < length x ->
  central_difference_gradient fm x h !! i = Some (central_difference fm x h i).
Proof.
  intros Hi. unfold central_difference_gradient.
  by rewrite list_lookup_fmap, lookup_seq_lt.
Qed.

Lemma length_gradient_evaluations fm x h :
  length (gradient_evaluations fm x h) = 2 * length x.
Proof.
  unfold gradient_evaluations.
  assert (Hl : forall l, length (flat_map (evaluations_at fm x h) l) = 2 * length l).
  { induction l as [|i l IH]; [reflexivity|].
    cbn [flat_map evaluations_at app length]. rewrite IH. lia. }
  by rewrite Hl, length_seq.
Qed.





Lemma length_descent_update alpha x g :
  length g = length x -> length (descent_update alpha x g) = length x.
Proof. intros Hg. unfold descent_update. rewrite length_zip_with, length_map. lia. Qed.

Lemma length_descent_iterate fm alpha h k x :
  length (descent_iterate fm alpha h k x) = length x.
Proof.
  induction k as [|k IH]; simpl; [done|]. unfold descent_step.
  rewrite length_descent_update; [done|].
  by rewrite length_central_difference_gradient.
Qed.

Section PureGradient.

Context {W : Type}.
Implicit Types (s : state W) (fm : ndarray -> float).

Lemma partial_gradient_full fm d h G :
  partial_gradient fm d h (length d) G -> G = central_difference_gradient fm d h.
Proof.
  intros [Hlen HG]. apply list_eq. intros j.
  destruct (decide (j < length d)) as [Hj|Hj].
  - by rewrite HG, lookup_central_difference_gradient.
  - rewrite !lookup_ge_None_2; [done | |];
      rewrite ?length_central_difference_gradient; lia.
Qed.

Lemma partial_gradient_step fm d h i G :
  partial_gradient fm d h i G -> i < length d ->
  partial_gradient fm d h (S i) (<[i := central_difference fm d h i]> G).
Proof.
  intros [Hlen HG] Hi. split; [by rewrite length_insert|].
  intros j Hj. destruct (decide (j = i)) as [->|Hne].
  - apply list_lookup_insert_eq. lia.
  - rewrite list_lookup_insert_ne by done. apply HG. lia.
Qed.

(** The division in [gradient_function] returns: the results are
    [numpy.float64], or the step is not zero. *)
Lemma wp_gradient_quotient (k : kind) (v1 v2 h : float)
    (Q : float -> state W -> Prop) (E : exn -> state W -> Prop) s :
  k = NumpyFloat64 \/ Num.is_zero h = false ->
  Q (PrimFloat.div (PrimFloat.sub v1 v2) (PrimFloat.mul 2 h)) s ->
  wp (truediv (num_sub (mk_number k v1) (mk_number k v2)) (PrimFloat.mul 2 h)) Q E s.
Proof.
  intros Hk HQ. apply wp_truediv; [|done].
  destruct Hk as [->|Hh]; [by left | right; by apply is_zero_double].
Qed.

Lemma wp_gradient_function_function kd fm x h s a
    (Q : loc -> state W -> Prop) (E : exn -> state W -> Prop) :
  heap s !! x = Some a -> zero_dim a = false ->
  kd = NumpyFloat64 \/ Num.is_zero (default 1e-5%float h) = false ->
  (forall temps,
     Q (S (length (heap s)))
       (mk_state
          (heap s ++
             vector (as_float (buf a)) ::
             vector (central_difference_gradient fm (as_float (buf a))
                       (default 1e-5%float h)) :: temps)
          (world s)
          (trace s ++ gradient_evaluations fm (as_float (buf a))
                        (default 1e-5%float h)))) ->
  wp (gradient_function (function_objective kd fm) x h) Q E s.
Proof.
  intros Hx Hdim Hkind HQ.
  set (d := as_float (buf a)) in *. set (h' := default 1e-5%float h) in *.
  assert (Hxc : np_array_float a = vector d)
    by (unfold np_array_float, vector; by rewrite Hdim).
  unfold gradient_function. fold h'.
  apply wp_bind. eapply wp_load; [done|].
  apply wp_bind, wp_alloc. rewrite Hxc.
  apply wp_bind. eapply wp_load; [apply lookup_snoc_last|].
  apply wp_bind, wp_alloc. cbn [heap world trace].
  rewrite length_app, Nat.add_1_r, <- app_assoc. cbn [app].
  apply wp_bind. eapply wp_len; [apply layout_lookup_x|]. cbn [zero_dim vector].
  change (size (vector d)) with (length d).
  apply wp_bind.
  apply (wp_for_each (fun rem (_ : unit) t =>
    exists i G temps,
      rem = seq i (length d - i) /\ i <= length d /\
      partial_gradient fm d h' i G /\
      t = mk_state (heap s ++ vector d :: vector G :: temps) (world s)
            (trace s ++ flat_map (evaluations_at fm d h') (seq 0 i)))).
  - exists 0, (replicate (length d) 0%float), [].
    split; [by rewrite Nat.sub_0_r|]. split; [lia|]. split.
    + split; [by rewrite length_replicate | intros j Hj; lia].
    + simpl. by rewrite app_nil_r.
  - intros i0 rest [] t (i & G & temps & Hrem & Hi & HG & ->).
    destruct (length d - i) as [|k] eqn:Hk; [done|].
    simpl in Hrem. injection Hrem as -> ->.
    assert (Hlt : i < length d) by lia.
    rewrite row_np_eye_times by done.
    apply wp_bind. eapply wp_load; [apply layout_lookup_x|].
    apply wp_bind, wp_alloc. cbn [heap world trace].
    apply wp_bind. eapply wp_call_function; [apply lookup_snoc_last|].
    cbn [heap world trace]. rewrite layout_snoc.
    apply wp_bind. eapply wp_load; [apply layout_lookup_x|].
    apply wp_bind, wp_alloc. cbn [heap world trace].
    apply wp_bind. eapply wp_call_function; [apply lookup_snoc_last|].
    cbn [heap world trace]. rewrite layout_snoc.
    apply wp_bind. apply wp_gradient_quotient; [exact Hkind|].
    eapply wp_store_item_float64; [apply layout_lookup_g| |].
    { destruct HG as [HlenG _]. lia. }
    cbn [heap world trace]. rewrite layout_insert_g.
    exists (S i), (<[i := central_difference fm d h' i]> G),
      ((temps ++ [nd_add (vector d) (basis_times (length d) h' i)]) ++
         [nd_sub (vector d) (basis_times (length d) h' i)]).
    split; [f_equal; lia|]. split; [lia|].
    split; [by apply partial_gradient_step|].
    f_equal. rewrite seq_S, flat_map_app. simpl.
    by rewrite <- !app_assoc.
  - intros [] t (i & G & temps & Hrem & Hi & HG & ->).
    assert (i = length d) as ->.
    { destruct (length d - i) eqn:Hk; [lia | done]. }
    apply wp_ret. rewrite (partial_gradient_full _ _ _ _ HG). apply HQ.
Qed.

Lemma wp_gradient_function_pure fm x h s a
    (Q : loc -> state W -> Prop) (E : exn -> state W -> Prop) :
  heap s !! x = Some a -> zero_dim a = false ->
  (forall temps,
     Q (S (length (heap s)))
       (mk_state
          (heap s ++
             vector (as_float (buf a)) ::
             vector (central_difference_gradient fm (as_float (buf a))
                       (default 1e-5%float h)) :: temps)
          (world s)
          (trace s ++ gradient_evaluations fm (as_float (buf a))
                        (default 1e-5%float h)))) ->
  wp (gradient_function (pure_objective fm) x h) Q E s.
Proof.
  intros Hx Hdim HQ.
  apply (wp_gradient_function_function NumpyFloat64 fm x h s a); auto.
Qed.

Lemma gradient_function_pure_run fm x h s a :
  heap s !! x = Some a -> zero_dim a = false ->
  exists temps,
    gradient_function (pure_objective fm) x h s =
      (Ret (S (length (heap s))),
       mk_state
         (heap s ++
            vector (as_float (buf a)) ::
            vector (central_difference_gradient fm (as_float (buf a))
                      (default 1e-5%float h)) :: temps)
         (world s)
         (trace s ++ gradient_evaluations fm (as_float (buf a))
                       (default 1e-5%float h))).
Proof.
  intros Hx Hdim.
  pose proof (wp_gradient_function_pure fm x h s a
    (fun g t => exists temps,
       (g, t) = (S (length (heap s)),
         mk_state
           (heap s ++
              vector (as_float (buf a)) ::
              vector (central_difference_gradient fm (as_float (buf a))
                        (default 1e-5%float h)) :: temps)
           (world s)
           (trace s ++ gradient_evaluations fm (as_float (buf a))
                         (default 1e-5%float h))))
    (fun _ _ => False) Hx Hdim) as Hwp.
  unfold wp in Hwp.
  destruct (gradient_function (pure_objective fm) x h s) as [[g|e] t].
  - destruct Hwp as [temps [= -> ->]]; [by eexists|]. by exists temps.
  - destruct Hwp. intros temps. by exists temps.
Qed.

End PureGradient.

(** ** Runs of [gradient_descent] on an objective that is a function *)

Lemma descent_inv_init (pre : list ndarray) (pts : nat -> list float) :
  descent_inv (length pre) pre pts 0
    ((pre ++ [vector (pts 0)]) ++ [vector (pts 0)]) [S (length pre)].
Proof.
  unfold descent_inv. rewrite <- app_assoc. cbn [app].
  split; [rewrite length_app; simpl; lia|].
  split; [intros l Hl; by rewrite lookup_app_l|].
  split; [by apply list_lookup_middle|].
  split; [done|]. split.
  - intros j Hj. assert (j = 0) as -> by lia. exists (S (length pre)).
    split; [done|]. rewrite lookup_app_r by lia.
    by replace (S (length pre) - length pre) with 1 by lia.
  - split; [|apply NoDup_singleton].
    constructor; [|constructor]. rewrite length_app. simpl. lia.
Qed.

Lemma descent_inv_step n0 pre pts k hp hist (xc g : ndarray) temps :
  descent_inv n0 pre pts k hp hist ->
  descent_inv n0 pre pts (S k)
    (<[n0 := vector (pts (S k))]> (hp ++ xc :: g :: temps) ++ [vector (pts (S k))])
    (hist ++ [length (<[n0 := vector (pts (S k))]> (hp ++ xc :: g :: temps))]).
Proof.
  intros (Hn0 & Hpre & Hx & Hlen & Hsnap & Hbnd & Hnd).
  set (new := vector (pts (S k))).
  set (hp1 := hp ++ xc :: g :: temps).
  assert (Hlen1 : length hp <= length hp1) by (unfold hp1; rewrite length_app; lia).
  assert (Hold : forall l, l < length hp -> l <> n0 ->
            (<[n0 := new]> hp1 ++ [new]) !! l = hp !! l).
  { intros l Hl Hne. rewrite lookup_app_l by (rewrite length_insert; lia).
    rewrite list_lookup_insert_ne by done. unfold hp1. by rewrite lookup_app_l. }
  unfold descent_inv. rewrite length_app, !length_insert. cbn [length].
  split; [lia|].
  split; [intros l Hl; rewrite Hold by lia; by apply Hpre|].
  split.
  { rewrite lookup_app_l by (rewrite length_insert; lia).
    apply list_lookup_insert_eq. lia. }
  split; [rewrite length_app; simpl; lia|].
  split.
  { intros j Hj. destruct (decide (j = S k)) as [->|Hne].
    - exists (length hp1). split.
      + rewrite lookup_app_r by lia. by rewrite Hlen, Nat.sub_diag.
      + rewrite <- (length_insert hp1 n0 new). apply lookup_snoc_last.
    - destruct (Hsnap j) as (l & Hl & Hpt); [lia|]. exists l.
      split; [by apply lookup_app_l_Some|].
      rewrite Forall_forall in Hbnd.
      assert (n0 < l < length hp) by (apply Hbnd; by eapply list_elem_of_lookup_2).
      rewrite Hold by lia. done. }
  split.
  - apply Forall_app. split.
    + eapply Forall_impl; [done|]. simpl. intros l Hl. lia.
    + constructor; [lia | constructor].
  - apply NoDup_app. split; [done|]. split; [|apply NoDup_singleton].
    intros l Hin Hin'. apply list_elem_of_singleton in Hin'.
    rewrite Forall_forall in Hbnd. specialize (Hbnd l Hin). lia.
Qed.

Section PureDescent.

Context {W : Type}.
Implicit Types (s : state W) (fm : ndarray -> float).

Lemma wp_gradient_descent_function kd fm init_x lr num s a
    (Q : loc * list loc -> state W -> Prop) (E : exn -> state W -> Prop) :
  heap s !! init_x = Some a -> zero_dim a = false ->
  (forall hp hist,
     descent_inv (length (heap s)) (heap s)
       (fun k => descent_iterate fm (default 0.1%float lr) 1e-5%float k
                   (as_float (buf a)))
       (default 100 num) hp hist ->
     Q (length (heap s), hist)
       (mk_state hp (world s)
          (trace s ++ descent_evaluations fm (default 0.1%float lr) 1e-5%float
                        (default 100 num) (as_float (buf a))))) ->
  wp (gradient_descent (function_objective kd fm) init_x lr num) Q E s.
Proof.
  intros Hx Hdim HQ.
  set (d := as_float (buf a)) in *. set (alpha := default 0.1%float lr) in *.
  set (N := default 100 num) in *.
  set (pts := fun k => descent_iterate fm alpha 1e-5%float k d) in *.
  assert (Hxc : np_array_float a = vector (pts 0))
    by (unfold np_array_float, vector; by rewrite Hdim).
  unfold gradient_descent. fold alpha N.
  apply wp_bind. eapply wp_load; [done|].
  apply wp_bind, wp_alloc. rewrite Hxc.
  apply wp_bind. eapply wp_load; [apply lookup_snoc_last|].
  apply wp_bind, wp_alloc. cbn [heap world trace].
  rewrite length_app, Nat.add_1_r.
  apply wp_bind.
  apply (wp_for_each (fun rem hist t =>
    exists k hp,
      rem = seq k (N - k) /\ k <= N /\
      descent_inv (length (heap s)) (heap s) pts k hp hist /\
      t = mk_state hp (world s)
            (trace s ++ descent_evaluations fm alpha 1e-5%float k d))).
  - exists 0, ((heap s ++ [vector (pts 0)]) ++ [vector (pts 0)]).
    split; [by rewrite Nat.sub_0_r|]. split; [lia|].
    split; [apply descent_inv_init|].
    unfold descent_evaluations. simpl. by rewrite app_nil_r.
  - intros i0 rest hist t (k & hp & Hrem & Hk & Hinv & ->).
    destruct (N - k) as [|m] eqn:Hm; [done|].
    simpl in Hrem. injection Hrem as -> ->.
    pose proof Hinv as (Hn0 & _ & Hxk & _).
    apply wp_bind.
    eapply wp_gradient_function_function; [exact Hxk | done | by right |].
    intros temps. cbn [heap world trace buf vector as_float default].
    apply wp_bind. eapply wp_load; [apply layout_lookup_g|].
    apply wp_bind. eapply wp_load; [by apply lookup_app_l_Some|].
    apply wp_bind. apply wp_store.
    { cbn [heap]. rewrite length_app. lia. }
    cbn [heap world trace].
    apply wp_bind. eapply wp_load.
    { cbn [heap]. apply list_lookup_insert_eq. rewrite length_app. lia. }
    apply wp_bind, wp_alloc. cbn [heap world trace].
    apply wp_ret.
    exists (S k), (<[length (heap s) := vector (pts (S k))]>
                     (hp ++ vector (pts k) ::
                        vector (central_difference_gradient fm (pts k) 1e-5%float) ::
                        temps) ++ [vector (pts (S k))]).
    split; [f_equal; lia|]. split; [lia|].
    split; [by apply descent_inv_step|].
    f_equal. unfold descent_evaluations.
    by rewrite seq_S, flat_map_app, <- app_assoc; simpl; rewrite app_nil_r.
  - intros hist t (k & hp & Hrem & Hk & Hinv & ->).
    assert (k = N) as ->.
    { destruct (N - k) eqn:Hm; [lia | done]. }
    apply wp_ret. by apply HQ.
Qed.

Lemma wp_gradient_descent_pure fm init_x lr num s a
    (Q : loc * list loc -> state W -> Prop) (E : exn -> state W -> Prop) :
  heap s !! init_x = Some a -> zero_dim a = false ->
  (forall hp hist,
     descent_inv (length (heap s)) (heap s)
       (fun k => descent_iterate fm (default 0.1%float lr) 1e-5%float k
                   (as_float (buf a)))
       (default 100 num) hp hist ->
     Q (length (heap s), hist)
       (mk_state hp (world s)
          (trace s ++ descent_evaluations fm (default 0.1%float lr) 1e-5%float
                        (default 100 num) (as_float (buf a))))) ->
  wp (gradient_descent (pure_objective fm) init_x lr num) Q E s.
Proof. apply wp_gradient_descent_function. Qed.

End PureDescent.

(** ** [numerical_gradient]: perturb, evaluate, restore *)

Lemma size_setitem_float a idx v a' :
  setitem_float a idx v = Ret a' -> size a' = size a.
Proof.
  destruct a as [zd [d|d]]; unfold setitem_float, size; cbn [buf zero_dim].
  - intros [= <-]. simpl. by rewrite length_insert.
  - destruct (Num.float_to_int64 v); [|done].
    intros [= <-]. simpl. by rewrite length_insert.
Qed.



Lemma size_np_zeros_like a : size (np_zeros_like a) = size a.
Proof. destruct a as [zd [d|d]]; unfold size; simpl; by rewrite length_replicate. Qed.



(** A second store at a position replaces the first. *)
Lemma setitem_float_twice a idx p q a1 :
  setitem_float a idx p = Ret a1 ->
  setitem_float a1 idx q = setitem_float a idx q.
Proof.
  destruct a as [zd [d|d]]; unfold setitem_float; cbn [buf zero_dim].
  - intros [= <-]. cbn [buf zero_dim]. by rewrite list_insert_insert_eq.
  - destruct (Num.float_to_int64 p); [|done]. intros [= <-]. cbn [buf zero_dim].
    destruct (Num.float_to_int64 q); [|done]. by rewrite list_insert_insert_eq.
Qed.

(** Writing back the value read at [idx] undoes the two perturbations. *)
Lemma setitem_restore a idx v p q a1 a2 :
  getitem a idx = Some v ->
  setitem_float a idx p = Ret a1 -> setitem_float a1 idx q = Ret a2 ->
  setitem a2 idx v = Ret a.
Proof.
  intros Hv H1 H2. rewrite (setitem_float_twice _ _ _ _ _ H1) in H2. clear H1.
  destruct a as [zd [d|d]]; unfold getitem, setitem, setitem_float in *;
    cbn [buf zero_dim] in *.
  - destruct (d !! idx) as [y|] eqn:Hy; [|done]. injection Hv as <-.
    injection H2 as <-. cbn [buf zero_dim].
    by rewrite list_insert_insert_eq, list_insert_id.
  - destruct (d !! idx) as [y|] eqn:Hy; [|done]. injection Hv as <-.
    destruct (Num.float_to_int64 q); [|done]. injection H2 as <-.
    cbn [buf zero_dim]. by rewrite list_insert_insert_eq, list_insert_id.
Qed.

Lemma step_1e_4_nonzero : Num.is_zero (PrimFloat.mul 2 1e-4%float) = false.
Proof. reflexivity. Qed.

Section Restore.

Context {W : Type}.
Implicit Types (s t : state W).

Lemma two_cells_store_x t x ax ax' g ag (w : W) tr :
  two_cells t x ax g ag -> x <> g ->
  two_cells (mk_state (<[x := ax']> (heap t)) w tr) x ax' g ag.
Proof.
  intros [Hx Hg] Hne. split; simpl.
  - apply list_lookup_insert_eq. by eapply lookup_lt_Some.
  - by rewrite list_lookup_insert_ne.
Qed.

Lemma two_cells_store_g t x ax g ag ag' (w : W) tr :
  two_cells t x ax g ag -> x <> g ->
  two_cells (mk_state (<[g := ag']> (heap t)) w tr) x ax g ag'.
Proof.
  intros [Hx Hg] Hne. split; simpl.
  - by rewrite list_lookup_insert_ne.
  - apply list_lookup_insert_eq. by eapply lookup_lt_Some.
Qed.


End Restore.


(** The first evaluation [numerical_gradient] makes is on the array itself,
    its first element moved by [1e-4]. *)
Lemma numerical_gradient_first_evaluation {W} (f : objective W) x (s : state W) a v a1 :
  heap s !! x = Some a -> getitem a 0 = Some v ->
  setitem_float a 0 (PrimFloat.add (scalar_float v) 1e-4%float) = Ret a1 ->
  exists r evs,
    trace (numerical_gradient f x s).2 =
      trace s ++ mk_evaluation (AArray a1) r :: evs.
Proof.
  intros Hx Hv Ha1.
  assert (Hsz : 0 < size a).
  { destruct a as [zd [[|y d]|[|y d]]]; unfold getitem, size in *; simpl in *;
      first [done | lia]. }
  set (r1 := outcome_value (f a1 (world s)).1.1).
  enough (Hwp : wp (numerical_gradient f x)
    (fun _ t => exists evs, trace t =
       (trace s ++ [mk_evaluation (AArray a1) r1]) ++ evs)
    (fun _ t => exists evs, trace t =
       (trace s ++ [mk_evaluation (AArray a1) r1]) ++ evs) s).
  { exists r1. unfold wp in Hwp.
    destruct (numerical_gradient f x s) as [[g|e] t]; destruct Hwp as [evs Ht];
      exists evs; simpl; by rewrite Ht, <- app_assoc. }
  unfold numerical_gradient.
  apply wp_bind. eapply wp_load; [done|].
  apply wp_bind, wp_alloc.
  apply wp_bind. rewrite decide_False by lia. apply wp_ret.
  destruct (size a) as [|n] eqn:Hn; [lia|]. cbn [seq for_each].
  do 2 apply wp_bind_assoc.
  apply wp_bind. eapply wp_load_item; [by apply lookup_app_l_Some | done |].
  apply wp_bind_assoc.
  apply wp_bind. eapply wp_store_item_float; [by apply lookup_app_l_Some | lia |].
  rewrite Ha1.
  apply wp_bind_assoc.
  eapply wp_bind.
  eapply wp_call.
  { cbn [heap]. apply list_lookup_insert_eq. rewrite length_app.
    apply lookup_lt_Some in Hx. lia. }
  cbn [world trace]. intros r a' w' Hf. unfold r1. rewrite Hf. cbn [fst]. cbv zeta.
  destruct r as [fxh1|e]; [|by exists []; rewrite app_nil_r].
  apply wp_trace_prefix; [|by exists []; rewrite app_nil_r].
  propagate.
Qed.

(** ** [numerical_gradient] on an objective that is a function *)

Lemma filled_S {A} (zero : A) (q : nat -> A) n i :
  filled zero q n (S i) = <[i := q i]> (filled zero q n i).
Proof. unfold filled. by rewrite seq_S, fold_left_app. Qed.

Lemma length_filled {A} (zero : A) (q : nat -> A) n i :
  length (filled zero q n i) = n.
Proof.
  induction i as [|i IH]; [apply length_replicate|].
  by rewrite filled_S, length_insert.
Qed.

Lemma lookup_filled {A} (zero : A) (q : nat -> A) n i j :
  j < i -> j < n -> filled zero q n i !! j = Some (q j).
Proof.
  induction i as [|i IH]; intros Hji Hjn; [lia|].
  rewrite filled_S. destruct (decide (j = i)) as [->|Hne].
  - apply list_lookup_insert_eq. by rewrite length_filled.
  - rewrite list_lookup_insert_ne by done. apply IH; [lia | done].
Qed.


Section PureMultiIndex.

Context {W : Type}.
Implicit Types (s : state W) (fm : ndarray -> float).

(** The run of [numerical_gradient] on a function, when every store
    returns: at position [idx] the function sees [up idx] and [down idx],
    and the gradient goes from [G idx] to [G (S idx)]. *)
Lemma wp_numerical_gradient_function kd fm x s a (up down G : nat -> ndarray)
    (Q : loc -> state W -> Prop) (E : exn -> state W -> Prop) :
  heap s !! x = Some a -> size a <> 0 ->
  G 0 = np_zeros_like a ->
  (forall idx, idx < size a ->
     exists v, getitem a idx = Some v /\
       setitem_float a idx (PrimFloat.add (scalar_float v) 1e-4%float) =
         Ret (up idx) /\
       setitem_float (up idx) idx (scalar_sub v 1e-4%float) = Ret (down idx) /\
       setitem_float (G idx) idx (difference_1e_4 fm (up idx) (down idx)) =
         Ret (G (S idx))) ->
  Q (length (heap s))
    (mk_state (heap s ++ [G (size a)]) (world s)
       (trace s ++
          flat_map (fun idx => evaluations_on fm (up idx) (down idx))
            (seq 0 (size a)))) ->
  wp (numerical_gradient (function_objective kd fm) x) Q E s.
Proof.
  intros Hx Hsz HG0 Hstep HQ. unfold numerical_gradient.
  assert (Hlt : x < length (heap s)) by by eapply lookup_lt_Some.
  apply wp_bind. eapply wp_load; [done|].
  apply wp_bind, wp_alloc.
  apply wp_bind. rewrite decide_False by done. apply wp_ret.
  apply wp_bind.
  apply (wp_for_each (fun rem (_ : unit) t =>
    exists i,
      rem = seq i (size a - i) /\ i <= size a /\ size (G i) = size a /\
      t = mk_state (heap s ++ [G i]) (world s)
            (trace s ++
               flat_map (fun idx => evaluations_on fm (up idx) (down idx))
                 (seq 0 i)))).
  - exists 0. split; [by rewrite Nat.sub_0_r|]. split; [lia|].
    split; [rewrite HG0; apply size_np_zeros_like|].
    simpl. by rewrite app_nil_r, HG0.
  - intros i0 rest [] t (i & Hrem & Hi & HGsz & ->).
    destruct (size a - i) as [|m] eqn:Hm; [done|].
    simpl in Hrem. injection Hrem as -> ->.
    assert (Hidx : i < size a) by lia.
    destruct (Hstep i Hidx) as (v & Hv & Hup & Hdown & HGi).
    assert (HxG : forall b, (<[x := b]> (heap s ++ [G i])) !! x = Some b).
    { intros b. apply list_lookup_insert_eq. rewrite length_app. lia. }
    apply wp_bind. eapply wp_load_item; [by apply lookup_app_l_Some | done |].
    apply wp_bind. eapply wp_store_item_float; [by apply lookup_app_l_Some | done |].
    rewrite Hup. cbn [heap world trace].
    apply wp_bind. eapply wp_call_function; [apply HxG|]. cbn [heap world trace].
    apply wp_bind. eapply wp_store_item_float; [apply HxG | |].
    { by rewrite (size_setitem_float _ _ _ _ Hup). }
    rewrite Hdown. cbn [heap world trace]. rewrite list_insert_insert_eq.
    apply wp_bind. eapply wp_call_function; [apply HxG|]. cbn [heap world trace].
    apply wp_bind. apply wp_truediv; [right; apply step_1e_4_nonzero|].
    cbn [num_sub value].
    apply wp_bind. eapply wp_store_item_float.
    { cbn [heap]. rewrite list_lookup_insert_ne by lia. apply lookup_snoc_last. }
    { lia. }
    fold (difference_1e_4 fm (up i) (down i)). rewrite HGi.
    cbn [heap world trace].
    eapply wp_store_item.
    { cbn [heap]. rewrite list_lookup_insert_ne by lia. apply HxG. }
    { by rewrite (size_setitem_float _ _ _ _ Hdown), (size_setitem_float _ _ _ _ Hup). }
    { by eapply setitem_restore. }
    cbn [heap world trace].
    exists (S i). split; [f_equal; lia|]. split; [lia|].
    split; [by rewrite (size_setitem_float _ _ _ _ HGi)|]. f_equal.
    + rewrite list_insert_insert by lia.
      rewrite decide_False by lia.
      rewrite list_insert_insert_eq.
      rewrite (list_insert_id (heap s ++ [G i]) x a) by by apply lookup_app_l_Some.
      rewrite insert_app_r_alt by lia. by rewrite Nat.sub_diag.
    + rewrite seq_S, flat_map_app. simpl. unfold evaluations_on.
      by rewrite <- !app_assoc.
  - intros [] t (i & Hrem & Hi & _ & ->).
    assert (i = size a) as ->.
    { destruct (size a - i) eqn:Hm; [lia | done]. }
    by apply wp_ret.
Qed.

(** On an array of floats every store returns. *)
Lemma numerical_gradient_float_run kd fm x s zd d :
  heap s !! x = Some (mk_ndarray zd (Float64 d)) -> d <> [] ->
  numerical_gradient (function_objective kd fm) x s =
    (Ret (length (heap s)),
     mk_state
       (heap s ++
          [mk_ndarray zd (Float64
             (filled 0%float
                (fun idx =>
                   difference_1e_4 fm
                     (mk_ndarray zd (Float64 (moved_up d 1e-4%float idx)))
                     (mk_ndarray zd (Float64 (moved_down d 1e-4%float idx))))
                (length d) (length d)))])
       (world s)
       (trace s ++
          flat_map (fun idx =>
            evaluations_on fm
              (mk_ndarray zd (Float64 (moved_up d 1e-4%float idx)))
              (mk_ndarray zd (Float64 (moved_down d 1e-4%float idx))))
            (seq 0 (length d)))).
Proof.
  intros Hx Hne. apply wp_run.
  set (q := fun idx =>
    difference_1e_4 fm
      (mk_ndarray zd (Float64 (moved_up d 1e-4%float idx)))
      (mk_ndarray zd (Float64 (moved_down d 1e-4%float idx)))).
  apply (wp_numerical_gradient_function kd fm x s (mk_ndarray zd (Float64 d))
    (fun idx => mk_ndarray zd (Float64 (moved_up d 1e-4%float idx)))
    (fun idx => mk_ndarray zd (Float64 (moved_down d 1e-4%float idx)))
    (fun i => mk_ndarray zd (Float64 (filled 0%float q (length d) i)))).
  - done.
  - unfold size. destruct d; simpl; [done | lia].
  - done.
  - intros idx Hidx. change (size _) with (length d) in Hidx.
    destruct (lookup_lt_is_Some_2 d idx Hidx) as [y Hy].
    exists (F64 y). unfold getitem, setitem_float, moved_up, moved_down, scalar_sub.
    cbn [buf zero_dim scalar_float]. rewrite Hy. cbn [default from_option id].
    split; [done|]. split; [done|].
    split; [by rewrite list_insert_insert_eq|].
    rewrite filled_S. unfold q, moved_up, moved_down. by rewrite Hy.
  - done.
Qed.

End PureMultiIndex.

(** ** Integer arrays under [numerical_gradient] *)





Lemma wp_elim {W A} (m : M W A) (Q : A -> state W -> Prop) s :
  wp m Q (fun _ _ => False) s -> exists x s', m s = (Ret x, s') /\ Q x s'.
Proof. unfold wp. destruct (m s) as [[x|e] s']; [by exists x, s' | done]. Qed.

Lemma gradient_descent_pure_run {W} (fm : ndarray -> float) init_x lr num
    (s : state W) a :
  heap s !! init_x = Some a -> zero_dim a = false ->
  exists hp hist,
    gradient_descent (pure_objective fm) init_x lr num s =
      (Ret (length (heap s), hist),
       mk_state hp (world s)
         (trace s ++ descent_evaluations fm (default 0.1%float lr) 1e-5%float
                       (default 100 num) (as_float (buf a)))) /\
    descent_inv (length (heap s)) (heap s)
      (fun k => descent_iterate fm (default 0.1%float lr) 1e-5%float k
                  (as_float (buf a)))
      (default 100 num) hp hist.
Proof.
  intros Hx Hdim.
  destruct (wp_elim (gradient_descent (pure_objective fm) init_x lr num)
    (fun r t => exists hp hist,
       (r, t) = ((length (heap s), hist),
         mk_state hp (world s)
           (trace s ++ descent_evaluations fm (default 0.1%float lr) 1e-5%float
                         (default 100 num) (as_float (buf a)))) /\
       descent_inv (length (heap s)) (heap s)
         (fun k => descent_iterate fm (default 0.1%float lr) 1e-5%float k
                     (as_float (buf a)))
         (default 100 num) hp hist) s)
    as (r & t & Hrun & hp & hist & [= -> ->] & Hinv).
  - eapply wp_gradient_descent_pure; [done | done |].
    intros hp hist Hinv. by exists hp, hist.
  - by exists hp, hist.
Qed.


(** * The claims *)

Section Claims.

Context {W : Type}.
Implicit Types (s : state W).

(** C4.  For a function [fm] of one variable, a point [x] and a step [h]
    that is not zero, [numerical_derivative] returns exactly
    [(fm (x + h) - fm (x - h)) / (2h)]; it evaluates [fm] exactly twice, at
    [x + h] and then at [x - h]; and it writes nothing: the store, where any
    object of the caller lives, is unchanged ([x] itself is a float, a
    value the routine cannot modify). *)
Theorem numerical_derivative_central_difference
    (fm : float -> float) (x h : float) s :
  Num.is_zero h = false ->
  numerical_derivative (pure_scalar fm) x (Some h) s =
    (Ret (PrimFloat.div
            (PrimFloat.sub (fm (PrimFloat.add x h)) (fm (PrimFloat.sub x h)))
            (PrimFloat.mul 2 h)),
     mk_state (heap s) (world s)
       (trace s ++
          [ mk_evaluation (AFloat (PrimFloat.add x h)) (Ret (fm (PrimFloat.add x h)));
            mk_evaluation (AFloat (PrimFloat.sub x h)) (Ret (fm (PrimFloat.sub x h))) ])).
Proof.
  intros Hh. apply is_zero_double in Hh.
  unfold numerical_derivative, bind, call_scalar, pure_scalar, function_scalar,
    truediv, num_sub.
  cbn [default from_option id heap world trace kind_of value outcome_value].
  rewrite Hh. unfold ret. by rewrite <- app_assoc.
Qed.

(** C2.  For a function [fm], a one-dimensional point holding [n]
    elements and a step [h], [gradient_function] returns a new float64
    vector of the same length [n] whose [i]-th entry is
    [(fm (x + h e_i) - fm (x - h e_i)) / (2h)], and evaluates [fm] exactly
    [2n] times (at [x + h e_0], [x - h e_0], [x + h e_1], ...); for [n = 0]
    the gradient is empty and [fm] is not evaluated. *)
Theorem gradient_function_central_difference
    (fm : ndarray -> float) (x : loc) (h : float) s (a : ndarray) :
  heap s !! x = Some a -> zero_dim a = false ->
  let d := as_float (buf a) in
  exists grad s' g evs,
    gradient_function (pure_objective fm) x (Some h) s = (Ret grad, s') /\
    heap s' !! grad = Some (vector g) /\
    length g = length d /\
    (forall i, i < length d -> g !! i = Some (central_difference fm d h i)) /\
    trace s' = trace s ++ evs /\
    evs = gradient_evaluations fm d h /\
    length evs = 2 * length d /\
    (length d = 0 -> g = [] /\ evs = []).
Proof.
  intros Hx Hdim d.
  destruct (gradient_function_pure_run fm x (Some h) s a Hx Hdim) as [temps Hrun].
  eexists _, _, (central_difference_gradient fm d h), (gradient_evaluations fm d h).
  split; [exact Hrun|]. cbn [heap trace default].
  split; [apply layout_lookup_g|].
  split; [apply length_central_difference_gradient|].
  split; [intros i Hi; by apply lookup_central_difference_gradient|].
  split; [done|]. split; [done|].
  split; [apply length_gradient_evaluations|].
  intros Hn. unfold central_difference_gradient, gradient_evaluations.
  by rewrite Hn.
Qed.

(** C7.  [gradient_function] does not mutate the point it is given: for
    every objective (also one that writes to its argument, keeps state or
    raises), every reference [x] and every step, the object at [x] holds
    the same values after the call as before. *)
Theorem gradient_function_keeps_x (f : objective W) (x : loc) (h : option float) s :
  heap (gradient_function f x h s).2 !! x = heap s !! x.
Proof.
  destruct (decide (x < length (heap s))) as [Hlt|Hge].
  - eapply above_untouched; [apply above_gradient_function | done].
  - assert (Hnone : heap s !! x = None) by (apply lookup_ge_None_2; lia).
    unfold gradient_function, bind, load. by rewrite Hnone.
Qed.

(** C8.  If an evaluation of the objective raises during
    [gradient_function] or [gradient_descent], it is the last evaluation of
    the call (the call stops there), every evaluation before it returned,
    and the outcome of the call is that very exception: no gradient and no
    trajectory is returned. *)
Theorem objective_failure_propagates
    (f : objective W) (x : loc) (h lr : option float) (num : option nat)
    s (evs : list evaluation) (ev : evaluation) (e : exn) :
  ev ∈ evs -> ev_res ev = Raise e ->
  (trace (gradient_function f x h s).2 = trace s ++ evs ->
     (gradient_function f x h s).1 = Raise e /\ last evs = Some ev /\
     forall ev', ev' ∈ removelast evs -> ev_returned ev') /\
  (trace (gradient_descent f x lr num s).2 = trace s ++ evs ->
     (gradient_descent f x lr num s).1 = Raise e /\ last evs = Some ev /\
     forall ev', ev' ∈ removelast evs -> ev_returned ev').
Proof.
  intros Hin Hres. split; intros Htr.
  - destruct (propagates_gradient_function f x h s) as (evs' & Htr' & Hab).
    rewrite Htr in Htr'. apply app_inv_head in Htr' as <-.
    by eapply aborts_at_failed.
  - destruct (propagates_gradient_descent f x lr num s) as (evs' & Htr' & Hab).
    rewrite Htr in Htr'. apply app_inv_head in Htr' as <-.
    by eapply aborts_at_failed.
Qed.

(** C1.  For a function [fm], a one-dimensional initial point, a learning
    rate [alpha] and an iteration count [N], [gradient_descent] returns.
    With [pts 0] the elements of [init_x] and
    [pts (k + 1) = pts k - alpha * gradient (pts k)], the gradient being
    the central-difference gradient [gradient_function] computes with its
    default step, the returned point holds [pts N], the point after the
    [N]-th update; the returned trajectory names exactly [N + 1] objects,
    the [k]-th holding [pts k], so the first holds the elements of
    [init_x]; these objects are distinct from each other and from the
    returned point (they are snapshots), and [init_x] itself is left as it
    was.  With [N = 0] the returned point holds [pts 0] and the trajectory
    has one entry. *)
Theorem gradient_descent_trajectory
    (fm : ndarray -> float) (init_x : loc)
    (lr : option float) (num : option nat) s (a : ndarray) :
  heap s !! init_x = Some a -> zero_dim a = false ->
  let alpha := default 0.1%float lr in
  let N := default 100 num in
  exists x hist s' (pts : nat -> list float),
    gradient_descent (pure_objective fm) init_x lr num s = (Ret (x, hist), s') /\
    pts 0 = as_float (buf a) /\
    (forall k, k < N ->
       pts (S k) =
         descent_update alpha (pts k)
           (central_difference_gradient fm (pts k) 1e-5%float)) /\
    heap s' !! x = Some (vector (pts N)) /\
    length hist = S N /\
    (forall k, k <= N ->
       exists l, hist !! k = Some l /\ heap s' !! l = Some (vector (pts k))) /\
    NoDup (x :: hist) /\
    heap s' !! init_x = Some a.
Proof.
  intros Hx Hdim alpha N.
  destruct (gradient_descent_pure_run fm init_x lr num s a Hx Hdim)
    as (hp & hist & Hrun & Hn0 & Hpre & Hxk & Hlen & Hsnap & Hbnd & Hnd).
  eexists _, hist, _,
    (fun k => descent_iterate fm alpha 1e-5%float k (as_float (buf a))).
  split; [exact Hrun|]. cbn [heap].
  split; [done|]. split; [done|]. split; [exact Hxk|].
  split; [exact Hlen|]. split; [exact Hsnap|]. split.
  - constructor; [|done]. intros Hin.
    rewrite Forall_forall in Hbnd. specialize (Hbnd _ Hin). lia.
  - rewrite Hpre; [done|]. by eapply lookup_lt_Some.
Qed.

(** C9.  Every iteration of [gradient_descent] takes its gradient from
    [gradient_function] with that routine's default step [1e-5]: the
    evaluations of a run are exactly those of the central differences of
    step [1e-5] at the successive points, each on a fresh perturbed copy
    (none is an evaluation on the working array itself, as the
    multi-index routine would make, and none is at distance [1e-4]); and
    each snapshot is the previous one minus [alpha] times the vector that
    [gradient_function (f, x, 1e-5)] returns when run on that previous
    point. *)
Theorem gradient_descent_calls_gradient_function
    (fm : ndarray -> float) (init_x : loc)
    (lr : option float) (num : option nat) s (a : ndarray) :
  heap s !! init_x = Some a -> zero_dim a = false ->
  let alpha := default 0.1%float lr in
  let N := default 100 num in
  exists x hist s',
    gradient_descent (pure_objective fm) init_x lr num s = (Ret (x, hist), s') /\
    trace s' =
      trace s ++ descent_evaluations fm alpha 1e-5%float N (as_float (buf a)) /\
    forall k l l',
      k < N -> hist !! k = Some l -> hist !! S k = Some l' ->
      exists xk,
        heap s' !! l = Some (vector xk) /\
        forall (t : state W) (p : loc),
          heap t !! p = Some (vector xk) ->
          exists g t' G,
            gradient_function (pure_objective fm) p (Some 1e-5%float) t = (Ret g, t') /\
            heap t' !! g = Some (vector G) /\
            heap s' !! l' = Some (vector (descent_update alpha xk G)).
Proof.
  intros Hx Hdim alpha N.
  destruct (gradient_descent_pure_run fm init_x lr num s a Hx Hdim)
    as (hp & hist & Hrun & Hn0 & Hpre & Hxk & Hlen & Hsnap & Hbnd & Hnd).
  eexists _, hist, _. split; [exact Hrun|]. cbn [heap trace].
  split; [done|]. intros k l l' Hk Hl Hl'.
  destruct (Hsnap k) as (l0 & Hl0 & Hpt); [lia|].
  destruct (Hsnap (S k)) as (l1 & Hl1 & Hpt'); [lia|].
  rewrite Hl in Hl0. injection Hl0 as <-.
  rewrite Hl' in Hl1. injection Hl1 as <-.
  eexists. split; [exact Hpt|]. intros t p Hp.
  destruct (gradient_function_pure_run fm p (Some 1e-5%float) t _ Hp eq_refl)
    as [temps Hg].
  eexists _, _, _. split; [exact Hg|]. cbn [heap].
  split; [apply layout_lookup_g|]. exact Hpt'.
Qed.


(** C5, as the code has it.  When the caller supplies no step, [numerical_derivative]
    and [gradient_function], the vector-gradient routine, both use
    [h = 1e-5].  The step [1e-4] belongs to [numerical_gradient], the
    multi-index routine, which takes no step from the caller: it moves the
    element under test by [1e-4]. *)
Theorem default_steps
    (f1 : scalar_objective W) (f : objective W) (x0 : float) (x : loc) s :
  numerical_derivative f1 x0 None s =
    numerical_derivative f1 x0 (Some 1e-5%float) s /\
  gradient_function f x None s = gradient_function f x (Some 1e-5%float) s /\
  forall zd v d,
    heap s !! x = Some (mk_ndarray zd (Float64 (v :: d))) ->
    exists r evs,
      trace (numerical_gradient f x s).2 =
        trace s ++
          mk_evaluation
            (AArray (mk_ndarray zd (Float64 (PrimFloat.add v 1e-4%float :: d)))) r
          :: evs.
Proof.
  split; [done|]. split; [done|]. intros zd v d Hx.
  by apply (numerical_gradient_first_evaluation f x s _ (F64 v) _ Hx).
Qed.


End Claims.


(** * Concrete runs *)

Import Examples.

(** C6.  Gradient descent on [f(x) = (x - 2) ** 2] from the one-element point
    [0.0], with the default learning rate [0.1] and the default [100]
    iterations, returns a point within [1e-3] of [2.0] and a trajectory of
    [101] snapshots, the first of which holds [0.0]. *)
Theorem gradient_descent_quadratic :
  exists x hist s' v l0,
    gradient_descent (pure_objective quadratic) 0 None None
      (store_of (vector [0%float]) tt) = (Ret (x, hist), s') /\
    heap s' !! x = Some (vector [v]) /\
    PrimFloat.ltb (PrimFloat.abs (PrimFloat.sub v 2)) 1e-3%float = true /\
    length hist = 101 /\
    hist !! 0 = Some l0 /\
    heap s' !! l0 = Some (vector [0%float]).
Proof.
  eexists _, _, _, _, _.
  split; [vm_compute; reflexivity|].
  split; [vm_compute; reflexivity|].
  split; [vm_compute; reflexivity|].
  split; [vm_compute; reflexivity|].
  split; vm_compute; reflexivity.
Qed.

(** A 0-d start (the scalar [0.0] itself, [np.array(0.0)]) has no [len]: with
    at least one iteration the first call of [gradient_function] raises
    [TypeError]; with no iteration the 0-d point is returned. *)
Example gradient_descent_zero_dim :
  (gradient_descent (pure_objective quadratic) 0 None None
     (store_of (mk_ndarray true (Float64 [0%float])) tt)).1 = Raise TypeError /\
  (gradient_descent (pure_objective quadratic) 0 None (Some 0)
     (store_of (mk_ndarray true (Float64 [0%float])) tt)).1 = Ret (1, [2]).
Proof. split; vm_compute; reflexivity. Qed.

(** ** Instances of the theorems above *)

Lemma numerical_derivative_central_difference_witness :
  Num.is_zero 1e-5%float = false /\
  numerical_derivative (pure_scalar square) 3%float (Some 1e-5%float)
    (mk_state [] tt []) =
    (Ret 6.0000000000393063%float,
     mk_state [] tt
       [ mk_evaluation (AFloat 3.0000100000000001%float) (Ret 9.0000600000999995%float);
         mk_evaluation (AFloat 2.9999899999999999%float) (Ret 8.9999400000999987%float) ]).
Proof.
  split; [reflexivity|].
  exact (numerical_derivative_central_difference square 3%float 1e-5%float
           (mk_state [] tt []) eq_refl).
Defined.

Lemma gradient_function_central_difference_witness :
  exists grad s' g,
    gradient_function (pure_objective sum_of_squares) 0 (Some 1e-5%float)
      (store_of (vector [3%float; 4%float]) tt) = (Ret grad, s') /\
    heap s' !! grad = Some (vector g) /\
    g = [6.0000000001281242%float; 7.9999999998747731%float] /\
    length (trace s') = 4.
Proof.
  destruct (gradient_function_central_difference sum_of_squares 0 1e-5%float
              (store_of (vector [3%float; 4%float]) tt)
              (vector [3%float; 4%float]) eq_refl eq_refl)
    as (grad & s' & g & evs & Hrun & Hg & Hlen & Hi & Htr & Hevs & Hn & _).
  exists grad, s', g. split; [exact Hrun|]. split; [exact Hg|]. split.
  - apply list_eq. intros [|[|i]].
    + rewrite (Hi 0) by (simpl; lia). reflexivity.
    + rewrite (Hi 1) by (simpl; lia). reflexivity.
    + rewrite lookup_ge_None_2 by (rewrite Hlen; simpl; lia). reflexivity.
  - rewrite Htr, Hevs. reflexivity.
Defined.

Lemma objective_failure_propagates_witness :
  (gradient_function fails_second 0 None
     (store_of (vector [3%float; 4%float]) 0)).1 = Raise (ObjectiveError 7) /\
  (gradient_descent fails_second 0 None None
     (store_of (vector [3%float; 4%float]) 0)).1 = Raise (ObjectiveError 7).
Proof.
  pose (plus := vector (shift_plus [3%float; 4%float] 1e-5%float 0)).
  pose (minus := vector (shift_minus [3%float; 4%float] 1e-5%float 0)).
  pose (ev := mk_evaluation (AArray minus) (Raise (ObjectiveError 7))).
  pose (evs := [mk_evaluation (AArray plus) (Ret (sum_of_squares plus)); ev]).
  destruct (objective_failure_propagates fails_second 0 None None None
              (store_of (vector [3%float; 4%float]) 0) evs ev (ObjectiveError 7))
    as [Hg Hd].
  - apply list_elem_of_further, list_elem_of_here.
  - reflexivity.
  - split.
    + apply Hg. vm_compute. reflexivity.
    + apply Hd. vm_compute. reflexivity.
Defined.

Lemma gradient_descent_trajectory_witness :
  exists x hist s',
    gradient_descent (pure_objective quadratic) 0 (Some 0.1%float) (Some 3)
      (store_of (vector [0%float]) tt) = (Ret (x, hist), s') /\
    length hist = 4 /\ NoDup (x :: hist) /\
    heap s' !! 0 = Some (vector [0%float]).
Proof.
  destruct (gradient_descent_trajectory quadratic 0 (Some 0.1%float) (Some 3)
              (store_of (vector [0%float]) tt) (vector [0%float]) eq_refl eq_refl)
    as (x & hist & s' & pts & Hrun & _ & _ & _ & Hlen & _ & Hnd & Hinit).
  exists x, hist, s'. repeat split; assumption.
Defined.

Lemma gradient_descent_calls_gradient_function_witness :
  exists x hist s',
    gradient_descent (pure_objective quadratic) 0 None (Some 2)
      (store_of (vector [0%float]) tt) = (Ret (x, hist), s') /\
    trace s' = descent_evaluations quadratic 0.1%float 1e-5%float 2 [0%float].
Proof.
  destruct (gradient_descent_calls_gradient_function quadratic 0 None (Some 2)
              (store_of (vector [0%float]) tt) (vector [0%float]) eq_refl eq_refl)
    as (x & hist & s' & Hrun & Htr & _).
  exists x, hist, s'. split; assumption.
Defined.


Lemma default_steps_witness :
  exists r evs,
    trace (numerical_gradient (pure_objective sum_of_squares) 0
             (store_of (vector [3%float; 4%float]) tt)).2 =
      mk_evaluation (AArray (vector [PrimFloat.add 3 1e-4%float; 4%float])) r :: evs.
Proof.
  destruct (default_steps (pure_scalar square) (pure_objective sum_of_squares)
              3%float 0 (store_of (vector [3%float; 4%float]) tt))
    as (_ & _ & Hng).
  exact (Hng false 3%float [4%float] eq_refl).
Defined.


(** ** Inputs that bound C3, C5 and C10 *)


(** C5 read with [1e-4] for [gradient_function]: without a step it is not
    [gradient_function] with the step [1e-4]; at the point [1.0] it evaluates
    the objective at [1.00001], not at [1.0001]. *)
Lemma gradient_function_default_step_not_1e_4 :
  trace (gradient_function (pure_objective first_element) 0 None
           (store_of (vector [1%float]) tt)).2 !! 0 =
    Some (mk_evaluation (AArray (vector [1.00001%float])) (Ret 1.00001%float)) /\
  ~ (forall (f : objective unit) (x : loc) (s : state unit),
       gradient_function f x None s = gradient_function f x (Some 1e-4%float) s).
Proof.
  split; [vm_compute; reflexivity|].
  intros H.
  specialize (H (pure_objective first_element) 0 (store_of (vector [1%float]) tt)).
  vm_compute in H. discriminate H.
Qed.


(** On a positive entry the two routines do differ: for the sum of squares at
    the integer point [3], [numerical_gradient] returns the integer [25000]
    where [gradient_function], which coerces to float, returns a value within
    [1e-6] of [6.0]. *)
Example integer_point_three :
  exists g1 s1 g2 s2 v,
    numerical_gradient (pure_objective sum_of_squares) 0
      (store_of (int_vector [3%Z]) tt) = (Ret g1, s1) /\
    gradient_function (pure_objective sum_of_squares) 0 None
      (store_of (int_vector [3%Z]) tt) = (Ret g2, s2) /\
    heap s1 !! g1 = Some (int_vector [25000%Z]) /\
    heap s2 !! g2 = Some (vector [v]) /\
    PrimFloat.ltb (PrimFloat.abs (PrimFloat.sub v 6)) 1e-6%float = true.
Proof.
  eexists _, _, _, _, _.
  split; [vm_compute; reflexivity|]. split; [vm_compute; reflexivity|].
  split; [vm_compute; reflexivity|]. split; vm_compute; reflexivity.
Qed.

(** Negative entries go the other way: [x[i] + h] is stored as [x[i] + 1] and
    [x[i] - h] as [x[i]]. *)
Example integer_point_negative :
  setitem_float (int_vector [(-3)%Z]) 0
    (PrimFloat.add (Num.int64_to_float (-3)) 1e-4%float) =
    Ret (int_vector [(-2)%Z]) /\
  setitem_float (int_vector [(-3)%Z]) 0
    (PrimFloat.sub (Num.int64_to_float (-3)) 1e-4%float) =
    Ret (int_vector [(-3)%Z]).
Proof. split; vm_compute; reflexivity. Qed.

(** Entries too large for [1e-4] to show in binary64 are not moved at all:
    at [2 ^ 41] both perturbed values are stored as [2 ^ 41]. *)
Example integer_point_large :
  setitem_float (int_vector [2199023255552%Z]) 0
    (PrimFloat.add (Num.int64_to_float 2199023255552) 1e-4%float) =
    Ret (int_vector [2199023255552%Z]) /\
  setitem_float (int_vector [2199023255552%Z]) 0
    (PrimFloat.sub (Num.int64_to_float 2199023255552) 1e-4%float) =
    Ret (int_vector [2199023255552%Z]).
Proof. split; vm_compute; reflexivity. Qed.

(** A store into an array of integers raises when the value has no integer
    to go to.  With an objective that returns nan the quotient is nan: the
    store of the gradient component raises [ValueError] after both
    evaluations, and the array [[3]] is left as [[2]]. *)
Example integer_store_of_nan :
  numerical_gradient (pure_objective (fun _ => nan)) 0
    (store_of (int_vector [3%Z]) tt) =
    (Raise ValueError,
     mk_state [int_vector [2%Z]; int_vector [0%Z]] tt
       [ mk_evaluation (AArray (int_vector [3%Z])) (Ret nan);
         mk_evaluation (AArray (int_vector [2%Z])) (Ret nan) ]).
Proof. vm_compute. reflexivity. Qed.

(** With the objective [1e30 * x[0]] the quotient is beyond int64: the store
    raises [OverflowError] and the array [[3]] is left as [[2]]. *)
Example integer_store_out_of_range :
  (numerical_gradient
     (pure_objective (fun a => PrimFloat.mul 1e30 (first_element a))) 0
     (store_of (int_vector [3%Z]) tt)).1 = Raise OverflowError /\
  heap (numerical_gradient
          (pure_objective (fun a => PrimFloat.mul 1e30 (first_element a))) 0
          (store_of (int_vector [3%Z]) tt)).2 !! 0 = Some (int_vector [2%Z]).
Proof. split; vm_compute; reflexivity. Qed.

(** At the largest int64 the first store, of [float(x[0]) + 1e-4], raises
    [OverflowError] before the objective is evaluated once. *)
Example integer_store_before_evaluation :
  numerical_gradient (pure_objective sum_of_squares) 0
    (store_of (int_vector [9223372036854775807%Z]) tt) =
    (Raise OverflowError,
     mk_state [int_vector [9223372036854775807%Z]; int_vector [0%Z]] tt []).
Proof. vm_compute. reflexivity. Qed.

(** * Further properties of the code *)

(** ** Facts of binary64 arithmetic *)

Lemma is_zero_spec (h : float) :
  Num.is_zero h = true <-> exists s, Prim2SF h = S754_zero s.
Proof.
  unfold Num.is_zero. rewrite FloatAxioms.eqb_spec.
  change (Prim2SF 0) with (S754_zero false).
  destruct (Prim2SF h) as [s|s| |s m e]; split.
  - by exists s.
  - done.
  - destruct s; discriminate.
  - by intros [? [=]].
  - discriminate.
  - by intros [? [=]].
  - destruct s; discriminate.
  - by intros [? [=]].
Qed.

Lemma is_zero_double_zero (h : float) :
  Num.is_zero h = true -> Num.is_zero (PrimFloat.mul 2 h) = true.
Proof.
  intros Hh. apply is_zero_spec in Hh as [s Hs]. apply is_zero_spec.
  exists s. rewrite FloatAxioms.mul_spec, Hs.
  change (Prim2SF 2) with (S754_finite false 4503599627370496 (-51)).
  reflexivity.
Qed.

(** [v - 0.0] is [v], bit for bit. *)
Lemma float_sub_zero (v : float) : PrimFloat.sub v 0 = v.
Proof.
  apply Prim2SF_inj. rewrite FloatAxioms.sub_spec.
  change (Prim2SF 0) with (S754_zero false).
  by destruct (Prim2SF v) as [[|]|[|]| |s m e].
Qed.


(** [c - c] is [+0.0] for every finite [c]. *)
Lemma float_sub_diag (c : float) :
  is_finite_value c = true -> PrimFloat.sub c c = 0%float.
Proof.
  unfold is_finite_value. intros Hc.
  apply Prim2SF_inj. rewrite FloatAxioms.sub_spec.
  change (Prim2SF 0) with (S754_zero false).
  destruct (Prim2SF c) as [[|]|[|]| |s m e]; try done.
  unfold SF64sub, SFsub. by rewrite Z.sub_diag.
Qed.

(** [alpha * 0.0] is [+0.0] for every finite [alpha] that is not negative. *)
Lemma float_mul_zero (alpha : float) :
  is_finite_nonneg alpha = true -> PrimFloat.mul alpha 0 = 0%float.
Proof.
  unfold is_finite_nonneg. intros Ha.
  apply Prim2SF_inj. rewrite FloatAxioms.mul_spec.
  change (Prim2SF 0) with (S754_zero false).
  by destruct (Prim2SF alpha) as [[|]|[|]| |[|] m e].
Qed.

(** Comparisons with zero: an element that is [<= 0] is not [> 0]; one that
    is not [<= 0] (it is positive, or nan) is not [< 0]. *)
(** ** numerical_derivative *)

Section MoreDerivative.

Context {W : Type}.
Implicit Types (s : state W).

(** X1.  With a step that is zero ([0.0] or [-0.0]) [numerical_derivative]
    still evaluates the function twice.  For a function that returns Python
    floats the division by [2h] then raises [ZeroDivisionError]; for one
    that returns [numpy.float64] values nothing is raised and the result is
    the IEEE quotient by zero, an infinity or nan. *)
Theorem numerical_derivative_zero_step (fm : float -> float) (x h : float) s :
  Num.is_zero h = true ->
  let evs :=
    [ mk_evaluation (AFloat (PrimFloat.add x h)) (Ret (fm (PrimFloat.add x h)));
      mk_evaluation (AFloat (PrimFloat.sub x h)) (Ret (fm (PrimFloat.sub x h))) ] in
  let q :=
    PrimFloat.div
      (PrimFloat.sub (fm (PrimFloat.add x h)) (fm (PrimFloat.sub x h)))
      (PrimFloat.mul 2 h) in
  numerical_derivative (function_scalar PythonFloat fm) x (Some h) s =
    (Raise ZeroDivisionError, mk_state (heap s) (world s) (trace s ++ evs)) /\
  numerical_derivative (function_scalar NumpyFloat64 fm) x (Some h) s =
    (Ret q, mk_state (heap s) (world s) (trace s ++ evs)) /\
  is_finite_value q = false.
Proof.
  intros Hh evs q. apply is_zero_double_zero in Hh.
  split; [|split].
  - unfold numerical_derivative, bind, call_scalar, function_scalar, truediv, num_sub.
    cbn [default from_option id heap world trace kind_of value outcome_value].
    rewrite Hh. unfold raise. by rewrite <- app_assoc.
  - unfold numerical_derivative, bind, call_scalar, function_scalar, truediv, num_sub.
    cbn [default from_option id heap world trace kind_of value outcome_value].
    unfold ret. by rewrite <- app_assoc.
  - apply is_zero_spec in Hh as [sg Hsg]. unfold q, is_finite_value.
    rewrite FloatAxioms.div_spec, Hsg.
    by destruct (Prim2SF (PrimFloat.sub _ _)) as [[|]|[|]| |[|] m e], sg.
Qed.

(** X2.  For every objective of one variable, also one that keeps state or
    raises: [numerical_derivative] leaves the store as it is; it evaluates
    the objective at most twice, first at [x + h]; and an evaluation that
    raises is the last one and its exception is the outcome of the call. *)
Theorem numerical_derivative_any_objective
    (f : scalar_objective W) (x : float) (h : option float) s :
  heap (numerical_derivative f x h s).2 = heap s /\
  exists evs,
    trace (numerical_derivative f x h s).2 = trace s ++ evs /\
    length evs <= 2 /\
    (forall ev, evs !! 0 = Some ev ->
       ev_arg ev = AFloat (PrimFloat.add x (default 1e-5%float h))) /\
    (forall ev e, ev ∈ evs -> ev_res ev = Raise e ->
       (numerical_derivative f x h s).1 = Raise e /\ last evs = Some ev).
Proof.
  set (h' := default 1e-5%float h).
  assert (Hrun : exists r1 w1,
    f (PrimFloat.add x h') (world s) = (r1, w1)) by (destruct (f _ _); eauto).
  destruct Hrun as (r1 & w1 & H1).
  unfold numerical_derivative, bind, call_scalar. fold h'. rewrite H1.
  destruct r1 as [v1|e1]; cbn [heap world trace fst snd outcome_value].
  - destruct (f (PrimFloat.sub x h') w1) as [[v2|e2] w2] eqn:H2;
      cbn [heap world trace fst snd].
    + unfold truediv.
      destruct (kind_of (num_sub v1 v2));
        [destruct (Num.is_zero (PrimFloat.mul 2 h'))|];
        cbn [raise ret heap trace fst snd];
        (split; [done|]; eexists; split; [by rewrite <- app_assoc|];
         split; [simpl; lia|]; split; [by intros ev [= <-]|];
         intros ev e Hin Hres;
         apply elem_of_cons in Hin as [->|Hin]; [done|];
         apply list_elem_of_singleton in Hin as ->; done).
    + split; [done|]. eexists. split; [by rewrite <- app_assoc|].
      split; [simpl; lia|]. split; [by intros ev [= <-]|].
      intros ev e Hin Hres.
      apply elem_of_cons in Hin as [->|Hin]; [done|].
      apply list_elem_of_singleton in Hin as ->.
      simpl in Hres. by injection Hres as ->.
  - split; [done|]. eexists. split; [done|].
    split; [simpl; lia|]. split; [by intros ev [= <-]|].
    intros ev e Hin Hres. apply list_elem_of_singleton in Hin as ->.
    simpl in Hres. by injection Hres as ->.
Qed.

End MoreDerivative.

(** ** gradient_function *)

Lemma insert_snoc_last {A} (L : list A) (t t' : A) :
  <[length L := t']> (L ++ [t]) = L ++ [t'].
Proof. rewrite insert_app_r_alt by lia. by rewrite Nat.sub_diag. Qed.

Section MoreGradient.

Context {W : Type}.
Implicit Types (s : state W).

Lemma gradient_function_zero_dim_run (f : objective W) (x : loc) (h : option float) s a :
  heap s !! x = Some a -> zero_dim a = true ->
  gradient_function f x h s =
    (Raise TypeError,
     mk_state (heap s ++ [np_array_float a; np_zeros_like (np_array_float a)])
       (world s) (trace s)).
Proof.
  intros Hx Hdim.
  unfold gradient_function, bind, load, alloc, len.
  rewrite Hx. cbn [heap world trace]. rewrite lookup_snoc_last.
  cbn [heap world trace bind load].
  unfold bind, load. cbn [heap world trace].
  rewrite <- app_assoc. cbn [app]. rewrite layout_lookup_x.
  cbn [np_array_float zero_dim]. by rewrite Hdim.
Qed.

(** X3.  On a 0-d array (a bare number wrapped by [np.array]) and for every
    objective, [gradient_function] raises [TypeError], from [len(x)], before
    the objective is evaluated once; the array it was given is untouched. *)
Theorem gradient_function_zero_dim (f : objective W) (x : loc) (h : option float) s a :
  heap s !! x = Some a -> zero_dim a = true ->
  (gradient_function f x h s).1 = Raise TypeError /\
  trace (gradient_function f x h s).2 = trace s /\
  world (gradient_function f x h s).2 = world s /\
  heap (gradient_function f x h s).2 !! x = Some a.
Proof.
  intros Hx Hdim. rewrite (gradient_function_zero_dim_run f x h s a Hx Hdim).
  repeat split. by apply lookup_app_l_Some.
Qed.

(** X4.  [gradient_function] coerces its input to float before anything
    else: on an array of integers it evaluates the objective at the same
    points, and returns the same gradient, as on the float array holding
    the same values. *)
Theorem gradient_function_coerces
    (fm : ndarray -> float) (x1 x2 : loc) (h : option float) (s1 s2 : state W) a :
  heap s1 !! x1 = Some a -> heap s2 !! x2 = Some (np_array_float a) ->
  zero_dim a = false ->
  exists g1 t1 g2 t2 G evs,
    gradient_function (pure_objective fm) x1 h s1 = (Ret g1, t1) /\
    gradient_function (pure_objective fm) x2 h s2 = (Ret g2, t2) /\
    heap t1 !! g1 = Some (vector G) /\ heap t2 !! g2 = Some (vector G) /\
    trace t1 = trace s1 ++ evs /\ trace t2 = trace s2 ++ evs.
Proof.
  intros H1 H2 Hdim.
  destruct (gradient_function_pure_run fm x1 h s1 a H1 Hdim) as [temps1 Hr1].
  destruct (gradient_function_pure_run fm x2 h s2 _ H2 Hdim) as [temps2 Hr2].
  cbn [np_array_float buf as_float] in Hr2.
  eexists _, _, _, _, _, _. split; [exact Hr1|]. split; [exact Hr2|].
  cbn [heap trace]. split; [apply layout_lookup_g|].
  split; [apply layout_lookup_g|]. done.
Qed.

(** X5.  For every objective that returns (Python floats or
    [numpy.float64] values), whatever it does to the array it is handed and
    to its own state, and every step that is not zero, [gradient_function]
    returns a gradient of the length of the point after exactly [2n]
    evaluations, and the arrays evaluated are exactly [x + h e_0],
    [x - h e_0], [x + h e_1], ...: each is a fresh copy, so what the
    objective did to an earlier one does not show in a later one. *)
Theorem gradient_function_returning_objective
    (f : objective W) (x : loc) (h : float) s a :
  (forall b w, exists v b' w', f b w = (Ret v, b', w')) ->
  Num.is_zero h = false ->
  heap s !! x = Some a -> zero_dim a = false ->
  let d := as_float (buf a) in
  exists grad s' G evs,
    gradient_function f x (Some h) s = (Ret grad, s') /\
    heap s' !! grad = Some (vector G) /\ length G = length d /\
    heap s' !! x = Some a /\
    trace s' = trace s ++ evs /\
    length evs = 2 * length d /\
    map ev_arg evs =
      flat_map (fun i => [ AArray (vector (shift_plus d h i));
                           AArray (vector (shift_minus d h i)) ])
        (seq 0 (length d)).
Proof.
  intros Hf Hh Hx Hdim d.
  assert (Hlt : x < length (heap s)) by by eapply lookup_lt_Some.
  assert (Hxc : np_array_float a = vector d)
    by (unfold np_array_float, vector; by rewrite Hdim).
  enough (Hwp : wp (gradient_function f x (Some h))
    (fun grad s' => exists G evs,
       heap s' !! grad = Some (vector G) /\ length G = length d /\
       heap s' !! x = Some a /\
       trace s' = trace s ++ evs /\
       length evs = 2 * length d /\
       map ev_arg evs =
         flat_map (fun i => [ AArray (vector (shift_plus d h i));
                              AArray (vector (shift_minus d h i)) ])
           (seq 0 (length d))) (fun _ _ => False) s).
  { apply wp_elim in Hwp as (grad & s' & Hrun & G & evs & H).
    by exists grad, s', G, evs. }
  unfold gradient_function. cbn [default from_option id].
  apply wp_bind. eapply wp_load; [done|].
  apply wp_bind, wp_alloc. rewrite Hxc.
  apply wp_bind. eapply wp_load; [apply lookup_snoc_last|].
  apply wp_bind, wp_alloc. cbn [heap world trace].
  rewrite length_app, Nat.add_1_r, <- app_assoc. cbn [app].
  apply wp_bind. eapply wp_len; [apply layout_lookup_x|]. cbn [zero_dim vector].
  change (size (vector d)) with (length d).
  apply wp_bind.
  apply (wp_for_each (fun rem (_ : unit) t =>
    exists i G temps evs,
      rem = seq i (length d - i) /\ i <= length d /\
      heap t = heap s ++ vector d :: vector G :: temps /\
      length G = length d /\
      trace t = trace s ++ evs /\
      length evs = 2 * i /\
      map ev_arg evs =
        flat_map (fun i => [ AArray (vector (shift_plus d h i));
                             AArray (vector (shift_minus d h i)) ])
          (seq 0 i))).
  - exists 0, (replicate (length d) 0%float), [], [].
    split; [by rewrite Nat.sub_0_r|]. split; [lia|]. split; [done|].
    split; [by rewrite length_replicate|]. split; [by rewrite app_nil_r|]. done.
  - intros i0 rest [] t (i & G & temps & evs & Hrem & Hi & Hheap & HG & Htr & Hlen & Hargs).
    destruct (length d - i) as [|k] eqn:Hk; [done|].
    simpl in Hrem. injection Hrem as -> ->.
    assert (Hi' : i < length d) by lia.
    rewrite row_np_eye_times by done.
    apply wp_bind. eapply wp_load; [rewrite Hheap; apply layout_lookup_x|].
    apply wp_bind, wp_alloc. cbn [heap world trace].
    apply wp_bind. eapply wp_call; [apply lookup_snoc_last|].
    intros r1 b1 w1 Hf1.
    match type of Hf1 with
    | f ?b ?w = _ => destruct (Hf b w) as (v1 & b1' & w1' & Hf1')
    end.
    rewrite Hf1' in Hf1. injection Hf1 as <- <- <-. cbv zeta.
    cbn [heap world trace]. rewrite insert_snoc_last, Hheap, layout_snoc.
    apply wp_bind. eapply wp_load; [apply layout_lookup_x|].
    apply wp_bind, wp_alloc. cbn [heap world trace].
    apply wp_bind. eapply wp_call; [apply lookup_snoc_last|].
    intros r2 b2 w2 Hf2.
    match type of Hf2 with
    | f ?b ?w = _ => destruct (Hf b w) as (v2 & b2' & w2' & Hf2')
    end.
    rewrite Hf2' in Hf2. injection Hf2 as <- <- <-. cbv zeta.
    cbn [heap world trace]. rewrite insert_snoc_last, layout_snoc.
    apply wp_bind, wp_truediv; [right; by apply is_zero_double|].
    eapply wp_store_item_float64; [apply layout_lookup_g | lia |].
    cbn [heap world trace]. rewrite layout_insert_g.
    eexists (S i), _, _, _.
    split; [f_equal; lia|]. split; [lia|]. split; [reflexivity|].
    split; [by rewrite length_insert|].
    split; [by rewrite Htr, <- !app_assoc|].
    split; [rewrite !length_app, Hlen; simpl; lia|].
    rewrite !map_app, Hargs, seq_S, flat_map_app. simpl. done.
  - intros [] t (i & G & temps & evs & Hrem & Hi & Hheap & HG & Htr & Hlen & Hargs).
    assert (i = length d) as ->.
    { destruct (length d - i) eqn:Hk; [lia | done]. }
    apply wp_ret. exists G, evs.
    split; [rewrite Hheap; apply layout_lookup_g|]. split; [done|].
    split; [rewrite Hheap; by apply lookup_app_l_Some|]. done.
Qed.

End MoreGradient.

(** ** gradient_descent *)

Lemma length_descent_evaluations fm alpha h N x :
  length (descent_evaluations fm alpha h N x) = 2 * length x * N.
Proof.
  unfold descent_evaluations. induction N as [|N IH]; [simpl; lia|].
  rewrite seq_S, flat_map_app, length_app, IH. simpl.
  rewrite app_nil_r, length_gradient_evaluations, length_descent_iterate. lia.
Qed.

Lemma central_difference_gradient_constant (c : float) (x : list float) :
  is_finite_value c = true ->
  central_difference_gradient (fun _ => c) x 1e-5%float =
    replicate (length x) 0%float.
Proof.
  intros Hc. unfold central_difference_gradient, central_difference.
  rewrite float_sub_diag by done.
  change (PrimFloat.div 0 (PrimFloat.mul 2 1e-5%float)) with 0%float.
  generalize 0. induction (length x) as [|n IH]; intros k; [done|].
  simpl. f_equal. apply IH.
Qed.

Lemma descent_update_zero alpha (x : list float) :
  is_finite_nonneg alpha = true ->
  descent_update alpha x (replicate (length x) 0%float) = x.
Proof.
  intros Ha. unfold descent_update. induction x as [|v x IH]; [done|].
  simpl. rewrite float_mul_zero, float_sub_zero by done. f_equal. apply IH.
Qed.

Lemma descent_iterate_constant (c alpha : float) k (x : list float) :
  is_finite_value c = true -> is_finite_nonneg alpha = true ->
  descent_iterate (fun _ => c) alpha 1e-5%float k x = x.
Proof.
  intros Hc Ha. induction k as [|k IH]; [done|].
  simpl. rewrite IH. unfold descent_step.
  rewrite central_difference_gradient_constant by done.
  by apply descent_update_zero.
Qed.

Section MoreDescent.

Context {W : Type}.
Implicit Types (s : state W).

(** X6.  [gradient_function] and [gradient_descent] work on objects of their
    own: whatever the objective does, every object that was in the store
    before the call holds the same values after it, and the gradient, the
    point and the snapshots they return are objects created during the
    call. *)
Theorem routines_return_fresh_objects
    (f : objective W) (x : loc) (h lr : option float) (num : option nat) s :
  (forall l, l < length (heap s) ->
     heap (gradient_function f x h s).2 !! l = heap s !! l /\
     heap (gradient_descent f x lr num s).2 !! l = heap s !! l) /\
  (forall g, (gradient_function f x h s).1 = Ret g -> length (heap s) <= g) /\
  (forall p hist, (gradient_descent f x lr num s).1 = Ret (p, hist) ->
     length (heap s) <= p /\ Forall (fun l => length (heap s) <= l) hist).
Proof.
  destruct (above_gradient_function (length (heap s)) f x h s s (frame_refl s))
    as [[_ Hg] Hgr].
  destruct (above_gradient_descent (length (heap s)) f x lr num s s (frame_refl s))
    as [[_ Hd] Hdr].
  split; [intros l Hl; split; [by apply Hg | by apply Hd]|].
  split; [exact Hgr|]. intros p hist Hr. by apply (Hdr (p, hist)).
Qed.

(** X7.  With zero iterations [gradient_descent] never calls the objective:
    for every objective (also one that would raise) and every array (0-d and
    integer ones too) it returns a new float copy of [init_x] and a history
    of one snapshot, another new copy. *)
Theorem gradient_descent_no_iteration
    (f : objective W) (init_x : loc) (lr : option float) s a :
  heap s !! init_x = Some a ->
  gradient_descent f init_x lr (Some 0) s =
    (Ret (length (heap s), [S (length (heap s))]),
     mk_state (heap s ++ [np_array_float a; np_array_float a]) (world s) (trace s)).
Proof.
  intros Hx. unfold gradient_descent, bind, load, alloc.
  rewrite Hx. cbn [heap world trace default from_option id seq for_each ret].
  rewrite lookup_snoc_last. cbn [heap world trace].
  by rewrite length_app, Nat.add_1_r, <- app_assoc.
Qed.

(** X8.  From a 0-d start and with at least one iteration, [gradient_descent]
    raises [TypeError] in its first iteration, before the objective is
    evaluated once. *)
Theorem gradient_descent_zero_dim_raises
    (f : objective W) (init_x : loc) (lr : option float) (N : nat) s a :
  heap s !! init_x = Some a -> zero_dim a = true -> 0 < N ->
  (gradient_descent f init_x lr (Some N) s).1 = Raise TypeError /\
  trace (gradient_descent f init_x lr (Some N) s).2 = trace s /\
  world (gradient_descent f init_x lr (Some N) s).2 = world s.
Proof.
  intros Hx Hdim HN. destruct N as [|N]; [lia|].
  assert (Hrun : exists h', gradient_descent f init_x lr (Some (S N)) s =
            (Raise TypeError, mk_state h' (world s) (trace s))).
  { unfold gradient_descent, bind, load, alloc.
    rewrite Hx. cbn [heap world trace default from_option id].
    rewrite lookup_snoc_last. cbn [heap world trace seq for_each].
    unfold bind.
    rewrite (gradient_function_zero_dim_run f _ None _ (np_array_float a)).
    - by eexists.
    - cbn [heap]. rewrite <- app_assoc. apply layout_lookup_x.
    - done. }
  destruct Hrun as [h' ->]. done.
Qed.

(** X9.  The cost of a descent: on a function and an [n]-dimensional point,
    [gradient_descent] with [N] iterations evaluates the objective exactly
    [2 n N] times. *)
Theorem gradient_descent_cost
    (fm : ndarray -> float) (init_x : loc)
    (lr : option float) (num : option nat) s a :
  heap s !! init_x = Some a -> zero_dim a = false ->
  exists evs,
    trace (gradient_descent (pure_objective fm) init_x lr num s).2 = trace s ++ evs /\
    length evs = 2 * size a * default 100 num.
Proof.
  intros Hx Hdim.
  destruct (gradient_descent_pure_run fm init_x lr num s a Hx Hdim)
    as (hp & hist & Hrun & _).
  rewrite Hrun. eexists. split; [reflexivity|].
  rewrite length_descent_evaluations. f_equal. f_equal.
  unfold size. by destruct a as [zd [d|d]]; simpl; rewrite ?length_map.
Qed.

(** X10.  On an objective that is constant, with a finite value, and with a
    finite learning rate that is not negative, every gradient is exactly
    zero and the descent never moves: the returned point and every snapshot
    hold the elements of [init_x], bit for bit. *)
Theorem gradient_descent_constant_objective
    (c : float) (init_x : loc) (lr : option float) (num : option nat) s a :
  is_finite_value c = true ->
  is_finite_nonneg (default 0.1%float lr) = true ->
  heap s !! init_x = Some a -> zero_dim a = false ->
  central_difference_gradient (fun _ => c) (as_float (buf a)) 1e-5%float =
    replicate (size a) 0%float /\
  exists x hist s',
    gradient_descent (pure_objective (fun _ => c)) init_x lr num s =
      (Ret (x, hist), s') /\
    heap s' !! x = Some (vector (as_float (buf a))) /\
    length hist = S (default 100 num) /\
    forall l, l ∈ hist -> heap s' !! l = Some (vector (as_float (buf a))).
Proof.
  intros Hc Ha Hx Hdim. split.
  - rewrite central_difference_gradient_constant by done. f_equal.
    unfold size. by destruct a as [zd [d|d]]; simpl; rewrite ?length_map.
  - destruct (gradient_descent_pure_run (fun _ => c) init_x lr num s a Hx Hdim)
      as (hp & hist & Hrun & Hn0 & Hpre & Hxk & Hlen & Hsnap & Hbnd & Hnd).
    eexists _, hist, _. split; [exact Hrun|]. cbn [heap].
    rewrite descent_iterate_constant in Hxk by done.
    split; [exact Hxk|]. split; [exact Hlen|].
    intros l Hl. apply list_elem_of_lookup in Hl as [k Hk].
    assert (Hk' : k <= default 100 num).
    { apply lookup_lt_Some in Hk. lia. }
    destruct (Hsnap k Hk') as (l' & Hl' & Hpt).
    rewrite Hk in Hl'. injection Hl' as <-.
    by rewrite descent_iterate_constant in Hpt.
Qed.

End MoreDescent.

(** ** numerical_gradient *)



Section MoreMultiIndex.

Context {W : Type}.
Implicit Types (s t : state W).

(** X11.  On an array without elements [numerical_gradient] raises
    [ValueError] (the iterator refuses it) for every objective, without
    evaluating it, and the array is untouched; [gradient_function], given
    the same empty one-dimensional array, returns a gradient, also without
    an evaluation. *)
Theorem numerical_gradient_empty_array
    (f : objective W) (x : loc) (h : option float) s a :
  heap s !! x = Some a -> size a = 0 ->
  (numerical_gradient f x s).1 = Raise ValueError /\
  trace (numerical_gradient f x s).2 = trace s /\
  world (numerical_gradient f x s).2 = world s /\
  heap (numerical_gradient f x s).2 !! x = Some a /\
  (zero_dim a = false ->
     exists g,
       (gradient_function f x h s).1 = Ret g /\
       heap (gradient_function f x h s).2 !! g = Some (vector []) /\
       trace (gradient_function f x h s).2 = trace s).
Proof.
  intros Hx Hsz.
  assert (Hrun : numerical_gradient f x s =
    (Raise ValueError, mk_state (heap s ++ [np_zeros_like a]) (world s) (trace s))).
  { unfold numerical_gradient, bind, load, alloc. rewrite Hx.
    cbn [heap world trace]. by rewrite decide_True. }
  rewrite Hrun. cbn [fst snd heap world trace].
  split; [done|]. split; [done|]. split; [done|].
  split; [by apply lookup_app_l_Some|]. intros Hdim.
  assert (Hd : as_float (buf a) = []).
  { apply nil_length_inv. unfold size in Hsz.
    destruct (buf a); simpl in *; by rewrite ?length_map. }
  assert (Hg : gradient_function f x h s =
    (Ret (S (length (heap s))),
     mk_state (heap s ++ [vector []; vector []]) (world s) (trace s))).
  { unfold gradient_function, bind, load, alloc, len. rewrite Hx.
    cbn [heap world trace]. rewrite lookup_snoc_last.
    cbn [heap world trace]. unfold bind, load. cbn [heap world trace].
    rewrite <- app_assoc. cbn [app]. rewrite layout_lookup_x.
    unfold np_array_float, np_zeros_like, size. rewrite Hdim, Hd.
    cbn [zero_dim buf buf_size length replicate seq for_each ret heap world trace].
    by rewrite length_app, Nat.add_1_r. }
  rewrite Hg. cbn [fst snd heap world trace]. eexists. split; [done|].
  split; [apply layout_lookup_g | done].
Qed.

(** X12.  For a function [fm] and an array of floats of any shape that has
    elements, [numerical_gradient] returns a new float array of the same
    shape whose entry [idx] is
    [(fm (x with x[idx] + 1e-4) - fm (x with x[idx] - 1e-4)) / (2 * 1e-4)],
    after exactly two evaluations per element, in that order, and leaves the
    array as it was. *)
Theorem numerical_gradient_central_difference
    (fm : ndarray -> float) (x : loc) s (zd : bool) (d : list float) :
  heap s !! x = Some (mk_ndarray zd (Float64 d)) -> d <> [] ->
  let up idx := mk_ndarray zd (Float64 (moved_up d 1e-4%float idx)) in
  let down idx := mk_ndarray zd (Float64 (moved_down d 1e-4%float idx)) in
  exists g s' G,
    numerical_gradient (pure_objective fm) x s = (Ret g, s') /\
    length (heap s) <= g /\
    heap s' !! x = Some (mk_ndarray zd (Float64 d)) /\
    heap s' !! g = Some (mk_ndarray zd (Float64 G)) /\
    length G = length d /\
    (forall idx, idx < length d ->
       G !! idx =
         Some (PrimFloat.div (PrimFloat.sub (fm (up idx)) (fm (down idx)))
                 (PrimFloat.mul 2 1e-4%float))) /\
    trace s' =
      trace s ++
        flat_map (fun idx =>
          [ mk_evaluation (AArray (up idx)) (Ret (fm (up idx)));
            mk_evaluation (AArray (down idx)) (Ret (fm (down idx))) ])
          (seq 0 (length d)).
Proof.
  intros Hx Hne up down. subst up down.
  eexists (length (heap s)), _, _.
  split; [exact (numerical_gradient_float_run NumpyFloat64 fm x s zd d Hx Hne)|].
  cbn [heap trace]. split; [done|].
  split; [by apply lookup_app_l_Some|].
  split; [apply lookup_snoc_last|].
  split; [apply length_filled|]. split; [|done].
  intros idx Hidx. by rewrite lookup_filled.
Qed.


(** One round of the loop of [numerical_gradient] on an array of floats, for
    an objective that hands its argument back as it got it and may raise. *)
Lemma wp_numerical_gradient_round_raising (f : objective W) x g idx zd d G t
    (Q : unit -> state W -> Prop) :
  (forall b w, exists r w', f b w = (r, b, w')) ->
  two_cells t x (mk_ndarray zd (Float64 d)) g (mk_ndarray zd (Float64 G)) ->
  x <> g -> idx < length d -> length G = length d ->
  (forall t' G',
     two_cells t' x (mk_ndarray zd (Float64 d)) g (mk_ndarray zd (Float64 G')) ->
     length G' = length d -> Q tt t') ->
  wp (let! tmp_val := load_item x idx in
      let! _ := store_item_float x idx
        (PrimFloat.add (scalar_float tmp_val) 1e-4%float) in
      let! fxh1 := call f x in
      let! _ := store_item_float x idx (scalar_sub tmp_val 1e-4%float) in
      let! fxh2 := call f x in
      let! q := truediv (num_sub fxh1 fxh2) (PrimFloat.mul 2 1e-4%float) in
      let! _ := store_item_float g idx q in
      store_item x idx tmp_val) Q (interrupted_at x zd d) t.
Proof.
  intros Hf Hc Hne Hidx HG HQ.
  destruct (lookup_lt_is_Some_2 d idx Hidx) as [y Hy].
  assert (Hv : getitem (mk_ndarray zd (Float64 d)) idx = Some (F64 y))
    by (unfold getitem; cbn [buf]; by rewrite Hy).
  apply wp_bind. eapply wp_load_item; [apply Hc | done |].
  cbn [scalar_float]. unfold scalar_sub. cbn [scalar_float].
  apply wp_bind. eapply wp_store_item_float64; [apply Hc | done |].
  assert (Hup : <[idx := PrimFloat.add y 1e-4%float]> d = moved_up d 1e-4%float idx)
    by (unfold moved_up; by rewrite Hy).
  rewrite Hup.
  match goal with |- wp _ _ _ ?st => set (t1 := st) end.
  assert (Hc1 : two_cells t1 x (mk_ndarray zd (Float64 (moved_up d 1e-4%float idx)))
                  g (mk_ndarray zd (Float64 G)))
    by (eapply two_cells_store_x; eauto).
  clearbody t1. clear Hc.
  apply wp_bind. eapply wp_call; [apply Hc1|].
  intros r a' w' Hfa.
  match type of Hfa with
  | f ?b ?w = _ => destruct (Hf b w) as (r1 & w1 & Hfa')
  end.
  rewrite Hfa' in Hfa. injection Hfa as <- <- <-. cbv zeta.
  destruct r1 as [v1|e].
  2: { eexists idx, _. split; [done|]. split; [by left|]. split.
       - cbn [heap]. apply list_lookup_insert_eq.
         destruct Hc1 as [Hx1 _]. by eapply lookup_lt_Some.
       - cbn [trace outcome_value]. apply last_snoc. }
  match goal with |- wp _ _ _ ?st => set (t2 := st) end.
  assert (Hc2 : two_cells t2 x (mk_ndarray zd (Float64 (moved_up d 1e-4%float idx)))
                  g (mk_ndarray zd (Float64 G)))
    by (eapply two_cells_store_x; eauto).
  clearbody t2. clear Hc1 Hfa'.
  apply wp_bind. eapply wp_store_item_float64; [apply Hc2 | |].
  { unfold moved_up. by rewrite length_insert. }
  assert (Hdown : <[idx := PrimFloat.sub y 1e-4%float]> (moved_up d 1e-4%float idx) =
                  moved_down d 1e-4%float idx).
  { unfold moved_up, moved_down. by rewrite list_insert_insert_eq, Hy. }
  rewrite Hdown.
  match goal with |- wp _ _ _ ?st => set (t3 := st) end.
  assert (Hc3 : two_cells t3 x (mk_ndarray zd (Float64 (moved_down d 1e-4%float idx)))
                  g (mk_ndarray zd (Float64 G)))
    by (eapply two_cells_store_x; eauto).
  clearbody t3. clear Hc2.
  apply wp_bind. eapply wp_call; [apply Hc3|].
  intros r a' w' Hfa.
  match type of Hfa with
  | f ?b ?w = _ => destruct (Hf b w) as (r2 & w2 & Hfa')
  end.
  rewrite Hfa' in Hfa. injection Hfa as <- <- <-. cbv zeta.
  destruct r2 as [v2|e].
  2: { eexists idx, _. split; [done|]. split; [by right|]. split.
       - cbn [heap]. apply list_lookup_insert_eq.
         destruct Hc3 as [Hx3 _]. by eapply lookup_lt_Some.
       - cbn [trace outcome_value]. apply last_snoc. }
  match goal with |- wp _ _ _ ?st => set (t4 := st) end.
  assert (Hc4 : two_cells t4 x (mk_ndarray zd (Float64 (moved_down d 1e-4%float idx)))
                  g (mk_ndarray zd (Float64 G)))
    by (eapply two_cells_store_x; eauto).
  clearbody t4. clear Hc3 Hfa'.
  apply wp_bind, wp_truediv; [right; apply step_1e_4_nonzero|].
  apply wp_bind. eapply wp_store_item_float64; [apply Hc4 | lia |].
  match goal with |- wp _ _ _ ?st => set (t5 := st) end.
  assert (Hc5 : exists G',
            two_cells t5 x (mk_ndarray zd (Float64 (moved_down d 1e-4%float idx)))
              g (mk_ndarray zd (Float64 G')) /\ length G' = length d).
  { eexists. split; [eapply two_cells_store_g; eauto|]. by rewrite length_insert. }
  destruct Hc5 as (G' & Hc5 & HG').
  clearbody t5. clear Hc4.
  eapply wp_store_item; [apply Hc5 | | |].
  { unfold size, moved_down. cbn [buf buf_size]. by rewrite length_insert. }
  { unfold setitem, setitem_float, moved_down. cbn [buf zero_dim].
    by rewrite list_insert_insert_eq, list_insert_id. }
  eapply HQ; [|exact HG'].
  eapply two_cells_store_x; [exact Hc5 | done].
Qed.

(** X14.  When the objective raises inside [numerical_gradient], the array
    is left perturbed: for an objective that does not write to its argument
    and an array of floats with elements, either the call returns and the
    array is as it was, or it raises what the objective raised and the array
    is the one the objective was last given, the original with one element
    moved by [1e-4] up or down. *)
Theorem numerical_gradient_interrupted
    (f : objective W) (x : loc) s (zd : bool) (d : list float) :
  (forall b w, exists r w', f b w = (r, b, w')) ->
  heap s !! x = Some (mk_ndarray zd (Float64 d)) -> d <> [] ->
  match (numerical_gradient f x s).1 with
  | Ret _ =>
      heap (numerical_gradient f x s).2 !! x = Some (mk_ndarray zd (Float64 d))
  | Raise e => interrupted_at x zd d e (numerical_gradient f x s).2
  end.
Proof.
  intros Hf Hx Hne.
  enough (Hwp : wp (numerical_gradient f x)
    (fun _ t => heap t !! x = Some (mk_ndarray zd (Float64 d)))
    (interrupted_at x zd d) s).
  { unfold wp in Hwp. by destruct (numerical_gradient f x s) as [[g|e] t]. }
  unfold numerical_gradient.
  assert (Hlt : x < length (heap s)) by by eapply lookup_lt_Some.
  assert (Hsz : size (mk_ndarray zd (Float64 d)) <> 0)
    by (unfold size; destruct d; simpl; [done | lia]).
  apply wp_bind. eapply wp_load; [done|].
  apply wp_bind, wp_alloc.
  match goal with |- wp _ _ _ ?st => set (t0 := st) end.
  assert (Hc0 : two_cells t0 x (mk_ndarray zd (Float64 d)) (length (heap s))
                  (mk_ndarray zd (Float64 (replicate (length d) 0%float)))).
  { split; simpl; [by apply lookup_app_l_Some | apply lookup_snoc_last]. }
  clearbody t0.
  apply wp_bind. rewrite decide_False by done.
  apply wp_ret. apply wp_bind.
  change (size (mk_ndarray zd (Float64 d))) with (length d).
  apply (wp_for_each (fun rem (_ : unit) t =>
    Forall (fun i => i < length d) rem /\
    exists G,
      two_cells t x (mk_ndarray zd (Float64 d)) (length (heap s))
        (mk_ndarray zd (Float64 G)) /\
      length G = length d)).
  - split; [apply Forall_seq; intros; lia|].
    eexists. split; [exact Hc0 | apply length_replicate].
  - intros idx rest [] t (HF & G & Hc & HG).
    apply Forall_cons in HF as [Hidx HF].
    eapply wp_numerical_gradient_round_raising; [done | exact Hc | lia | done | done |].
    intros t' G' Hc' HG'. split; [done|]. by exists G'.
  - intros [] t (_ & G & Hc & HG). apply wp_ret. apply Hc.
Qed.

(** X19.  For every objective, an evaluation that raises inside
    [numerical_gradient] is the last evaluation of the call, all evaluations
    before it returned, and its exception is the outcome of the call: no
    gradient is returned. *)
Theorem numerical_gradient_failure_propagates
    (f : objective W) (x : loc) s (evs : list evaluation) (ev : evaluation) (e : exn) :
  trace (numerical_gradient f x s).2 = trace s ++ evs ->
  ev ∈ evs -> ev_res ev = Raise e ->
  (numerical_gradient f x s).1 = Raise e /\ last evs = Some ev /\
  forall ev', ev' ∈ removelast evs -> ev_returned ev'.
Proof.
  intros Htr Hin Hres.
  destruct (propagates_numerical_gradient f x s) as (evs' & Htr' & Hab).
  rewrite Htr in Htr'. apply app_inv_head in Htr' as <-.
  by eapply aborts_at_failed.
Qed.

End MoreMultiIndex.

(** ** step_function and relu_function *)

Lemma float_nan_not_gt_zero (v : float) :
  Prim2SF v = S754_nan -> PrimFloat.ltb 0 v = false.
Proof. intros Hv. by rewrite FloatAxioms.ltb_spec, Hv. Qed.

Lemma float_lt_zero_not_gt (v : float) :
  PrimFloat.ltb v 0 = true -> PrimFloat.ltb 0 v = false.
Proof.
  rewrite !FloatAxioms.ltb_spec.
  change (Prim2SF 0) with (S754_zero false).
  by destruct (Prim2SF v) as [[|]|[|]| |[|] m e].
Qed.

Lemma float_leb_zero_not_lt_is_zero (v : float) :
  PrimFloat.leb v 0 = true -> PrimFloat.ltb v 0 = false -> Num.is_zero v = true.
Proof.
  unfold Num.is_zero.
  rewrite FloatAxioms.leb_spec, FloatAxioms.ltb_spec, FloatAxioms.eqb_spec.
  change (Prim2SF 0) with (S754_zero false).
  by destruct (Prim2SF v) as [[|]|[|]| |[|] m e].
Qed.

Lemma fmax_zero_idempotent (v : float) : fmax_zero (fmax_zero v) = fmax_zero v.
Proof.
  unfold fmax_zero. destruct (PrimFloat.ltb v 0) eqn:Hv; [done | by rewrite Hv].
Qed.

Lemma fmax_zero_positive (v : float) :
  PrimFloat.ltb 0 (fmax_zero v) = PrimFloat.ltb 0 v.
Proof.
  unfold fmax_zero. destruct (PrimFloat.ltb v 0) eqn:Hv; [|done].
  by rewrite (float_lt_zero_not_gt v Hv).
Qed.

Lemma fmax_zero_not_negative (v : float) : PrimFloat.ltb (fmax_zero v) 0 = false.
Proof. unfold fmax_zero. by destruct (PrimFloat.ltb v 0) eqn:Hv. Qed.

Lemma np_maximum_zero_idempotent (a : ndarray) :
  np_maximum_zero (np_maximum_zero a) = np_maximum_zero a.
Proof.
  destruct a as [zd [d|d]]; unfold np_maximum_zero; cbn [zero_dim buf];
    do 2 f_equal; rewrite <- list_fmap_compose; apply list_fmap_ext; intros i v _;
    simpl; [apply fmax_zero_idempotent | lia].
Qed.

Lemma np_greater_zero_int_maximum (a : ndarray) :
  np_greater_zero_int (np_maximum_zero a) = np_greater_zero_int a.
Proof.
  destruct a as [zd [d|d]]; unfold np_greater_zero_int, np_maximum_zero;
    cbn [zero_dim buf]; do 2 f_equal; rewrite <- list_fmap_compose;
    apply list_fmap_ext; intros i v _; simpl.
  - by rewrite fmax_zero_positive.
  - destruct (Z.ltb_spec 0 (Z.max 0 v)), (Z.ltb_spec 0 v); first [done | lia].
Qed.

Section MoreActivations.

Context {W : Type}.
Implicit Types (s : state W).

(** X15.  [step_function] returns a new array of integers of the shape of
    its input, whatever the element type of the input; every entry is 0 or
    1, and it is 1 exactly where the input is greater than zero, so [nan],
    [-0.0] and [0.0] all give 0.  The input is untouched. *)
Theorem step_function_zero_one (x : loc) s a :
  heap s !! x = Some a ->
  exists G,
    step_function x s =
      (Ret (length (heap s)),
       mk_state (heap s ++ [mk_ndarray (zero_dim a) (Int64 G)]) (world s) (trace s)) /\
    length G = size a /\
    Forall (fun z => z = 0%Z \/ z = 1%Z) G /\
    (forall i v, getitem a i = Some v ->
       G !! i = Some (if scalar_positive v then 1%Z else 0%Z)) /\
    (forall i v, getitem a i = Some (F64 v) ->
       Prim2SF v = S754_nan \/ Num.is_zero v = true -> G !! i = Some 0%Z).
Proof.
  intros Hx. unfold step_function, bind, load, alloc. rewrite Hx.
  unfold np_greater_zero_int, size, getitem.
  destruct a as [zd [d|d]]; cbn [zero_dim buf buf_size].
  - eexists. split; [done|]. split; [by rewrite length_map|]. split.
    + apply Forall_fmap, Forall_true. intros v. simpl.
      destruct (PrimFloat.ltb 0 v); auto.
    + split.
      * intros i v Hv. rewrite list_lookup_fmap.
        destruct (d !! i) as [y|]; [|done]. simpl in Hv. by injection Hv as <-.
      * intros i v Hv Hz. rewrite list_lookup_fmap.
        destruct (d !! i) as [y|]; [|done]. simpl in Hv. injection Hv as ->.
        simpl. destruct Hz as [Hnan|Hzero].
        -- by rewrite float_nan_not_gt_zero.
        -- apply is_zero_spec in Hzero as [sg Hsg].
           rewrite FloatAxioms.ltb_spec, Hsg.
           change (Prim2SF 0) with (S754_zero false). done.
  - eexists. split; [done|]. split; [by rewrite length_map|]. split.
    + apply Forall_fmap, Forall_true. intros z. simpl.
      destruct (0 <? z)%Z; auto.
    + split.
      * intros i v Hv. rewrite list_lookup_fmap.
        destruct (d !! i) as [y|]; [|done]. simpl in Hv. by injection Hv as <-.
      * intros i v Hv. destruct (d !! i); done.
Qed.

(** X16.  [relu_function] returns a new array of the shape and element type
    of its input and leaves the input untouched.  No entry of the result is
    negative; an entry greater than zero is kept as it is; an entry that is
    zero or negative becomes zero; a [nan] stays [nan]. *)
Theorem relu_function_clamps (x : loc) s a :
  heap s !! x = Some a ->
  exists b,
    relu_function x s =
      (Ret (length (heap s)),
       mk_state (heap s ++ [b]) (world s) (trace s)) /\
    zero_dim b = zero_dim a /\ size b = size a /\
    (forall i v, getitem a i = Some (F64 v) ->
       exists r, getitem b i = Some (F64 r) /\
         PrimFloat.ltb r 0 = false /\
         (PrimFloat.ltb 0 v = true -> r = v) /\
         (PrimFloat.leb v 0 = true -> Num.is_zero r = true) /\
         (Prim2SF v = S754_nan -> Prim2SF r = S754_nan)) /\
    (forall i z, getitem a i = Some (I64 z) ->
       exists r, getitem b i = Some (I64 r) /\
         (0 <= r)%Z /\ ((0 < z)%Z -> r = z) /\ ((z <= 0)%Z -> r = 0%Z)).
Proof.
  intros Hx. unfold relu_function, bind, load, alloc. rewrite Hx.
  eexists. split; [done|]. unfold np_maximum_zero, size, getitem.
  destruct a as [zd [d|d]]; cbn [zero_dim buf buf_size].
  - split; [done|]. split; [by rewrite length_map|]. split.
    + intros i v Hv. rewrite list_lookup_fmap.
      destruct (d !! i) as [y|]; [|done]. simpl in Hv. injection Hv as ->.
      exists (fmax_zero v). split; [done|].
      split; [apply fmax_zero_not_negative|]. unfold fmax_zero. split.
      * intros Hpos. destruct (PrimFloat.ltb v 0) eqn:Hneg; [|done].
        by rewrite (float_lt_zero_not_gt v Hneg) in Hpos.
      * split.
        -- intros Hle. destruct (PrimFloat.ltb v 0) eqn:Hneg; [done|].
           by apply float_leb_zero_not_lt_is_zero.
        -- intros Hnan. by rewrite FloatAxioms.ltb_spec, Hnan.
    + intros i z Hz. destruct (d !! i); done.
  - split; [done|]. split; [by rewrite length_map|]. split.
    + intros i v Hv. destruct (d !! i); done.
    + intros i z Hz. rewrite list_lookup_fmap.
      destruct (d !! i) as [y|]; [|done]. simpl in Hz. injection Hz as ->.
      exists (Z.max 0 z). split; [done|]. lia.
Qed.

(** X17.  [relu_function] is idempotent: applied to its own result it
    returns another new array holding the same elements, bit for bit. *)
Theorem relu_function_idempotent (x : loc) s a :
  heap s !! x = Some a ->
  exists y1 s1 y2 s2 b,
    relu_function x s = (Ret y1, s1) /\
    relu_function y1 s1 = (Ret y2, s2) /\
    y1 <> y2 /\
    heap s2 !! y1 = Some b /\ heap s2 !! y2 = Some b.
Proof.
  intros Hx.
  assert (H1 : relu_function x s =
    (Ret (length (heap s)),
     mk_state (heap s ++ [np_maximum_zero a]) (world s) (trace s))).
  { unfold relu_function, bind, load, alloc. by rewrite Hx. }
  eexists _, _, _, _, (np_maximum_zero a). split; [exact H1|]. split.
  { unfold relu_function, bind, load, alloc. cbn [heap world trace].
    by rewrite lookup_snoc_last. }
  cbn [heap]. split; [rewrite length_app; simpl; lia|].
  split; [apply lookup_app_l_Some, lookup_snoc_last|].
  rewrite np_maximum_zero_idempotent. apply lookup_snoc_last.
Qed.

(** X18.  Taking [relu_function] first does not change what
    [step_function] returns: [step_function (relu_function x)] holds the
    same integers as [step_function x]. *)
Theorem step_function_after_relu (x : loc) s a :
  heap s !! x = Some a ->
  exists y s1 z1 s2 z2 s3 b,
    relu_function x s = (Ret y, s1) /\
    step_function y s1 = (Ret z1, s2) /\
    step_function x s = (Ret z2, s3) /\
    heap s2 !! z1 = Some b /\ heap s3 !! z2 = Some b.
Proof.
  intros Hx.
  assert (H1 : relu_function x s =
    (Ret (length (heap s)),
     mk_state (heap s ++ [np_maximum_zero a]) (world s) (trace s))).
  { unfold relu_function, bind, load, alloc. by rewrite Hx. }
  eexists _, _, _, _, _, _, (np_greater_zero_int a). split; [exact H1|]. split.
  { unfold step_function, bind, load, alloc. cbn [heap world trace].
    by rewrite lookup_snoc_last. }
  split; [unfold step_function, bind, load, alloc; by rewrite Hx|]. cbn [heap].
  split; [|apply lookup_snoc_last].
  rewrite np_greater_zero_int_maximum. apply lookup_snoc_last.
Qed.

End MoreActivations.

(** ** Python floats and numpy floats *)

Section MoreKinds.

Context {W : Type}.
Implicit Types (s t : state W).

Lemma truediv_nonzero (a : number) (b : float) s :
  Num.is_zero b = false ->
  truediv a b s = (Ret (PrimFloat.div (value a) b), s).
Proof. intros Hb. unfold truediv. rewrite Hb. by destruct (kind_of a). Qed.

Lemma bind_ext {A B} (m : M W A) (k1 k2 : A -> M W B) s :
  (forall a t, k1 a t = k2 a t) -> bind m k1 s = bind m k2 s.
Proof. intros H. unfold bind. by destruct (m s) as [[a|e] t]. Qed.

Lemma bind_ext_l {A B} (m1 m2 : M W A) (k : A -> M W B) s :
  m1 s = m2 s -> bind m1 k s = bind m2 k s.
Proof. intros H. unfold bind. by rewrite H. Qed.

Lemma for_each_ext {A B} (body1 body2 : A -> B -> M W B) xs acc s :
  (forall x b t, body1 x b t = body2 x b t) ->
  for_each xs body1 acc s = for_each xs body2 acc s.
Proof.
  intros H. revert acc s. induction xs as [|x xs IH]; intros acc s; [done|].
  simpl. unfold bind. rewrite H.
  destruct (body2 x acc s) as [[b|e] t]; [apply IH | done].
Qed.

Lemma bind_call_function {B} kd (fm : ndarray -> float) l (k : number -> M W B) s :
  bind (call (function_objective kd fm) l) k s =
    match heap s !! l with
    | Some a =>
        k (mk_number kd (fm a))
          (mk_state (<[l := a]> (heap s)) (world s)
             (trace s ++ [mk_evaluation (AArray a) (Ret (fm a))]))
    | None => (Raise ReferenceError, s)
    end.
Proof. unfold bind, call, function_objective. by destruct (heap s !! l). Qed.

(** Between two results of the same kind, a division by a divisor that is
    not zero is the IEEE division of the values. *)
Lemma bind_quotient {B} kd (v1 v2 b : float) (k : float -> M W B) s :
  Num.is_zero b = false ->
  bind (truediv (num_sub (mk_number kd v1) (mk_number kd v2)) b) k s =
    k (PrimFloat.div (PrimFloat.sub v1 v2) b) s.
Proof. intros Hb. unfold bind. by rewrite truediv_nonzero. Qed.

Lemma gradient_function_kind kd (fm : ndarray -> float) x h s :
  Num.is_zero (default 1e-5%float h) = false ->
  gradient_function (function_objective kd fm) x h s =
    gradient_function (pure_objective fm) x h s.
Proof.
  intros Hh. apply is_zero_double in Hh.
  unfold gradient_function, pure_objective.
  do 5 (apply bind_ext; intros ? ?).
  apply bind_ext_l, for_each_ext. intros i [] ?.
  do 2 (apply bind_ext; intros ? ?).
  rewrite !bind_call_function. destruct (heap _ !! _); [|done].
  do 2 (apply bind_ext; intros ? ?).
  rewrite !bind_call_function. destruct (heap _ !! _); [|done].
  by rewrite !bind_quotient.
Qed.

Lemma numerical_gradient_kind kd (fm : ndarray -> float) x s :
  numerical_gradient (function_objective kd fm) x s =
    numerical_gradient (pure_objective fm) x s.
Proof.
  unfold numerical_gradient, pure_objective.
  do 3 (apply bind_ext; intros ? ?).
  apply bind_ext_l, for_each_ext. intros i [] ?.
  do 2 (apply bind_ext; intros ? ?).
  rewrite !bind_call_function. destruct (heap _ !! _); [|done].
  apply bind_ext; intros ? ?.
  rewrite !bind_call_function. destruct (heap _ !! _); [|done].
  by rewrite !bind_quotient by apply step_1e_4_nonzero.
Qed.

(** X20.  Whether a function returns Python floats or [numpy.float64]
    values makes no difference to a run whose step is not zero: the same
    store, the same trace and the same result.  This holds for
    [numerical_derivative] and [gradient_function] with a step that is not
    zero (the default one is not), and for [gradient_descent] and
    [numerical_gradient], whose steps are fixed. *)
Theorem result_kind_irrelevant
    (kd : kind) (fs : float -> float) (fm : ndarray -> float)
    (x0 : float) (x : loc) (h lr : option float) (num : option nat) s :
  Num.is_zero (default 1e-5%float h) = false ->
  numerical_derivative (function_scalar kd fs) x0 h s =
    numerical_derivative (pure_scalar fs) x0 h s /\
  gradient_function (function_objective kd fm) x h s =
    gradient_function (pure_objective fm) x h s /\
  gradient_descent (function_objective kd fm) x lr num s =
    gradient_descent (pure_objective fm) x lr num s /\
  numerical_gradient (function_objective kd fm) x s =
    numerical_gradient (pure_objective fm) x s.
Proof.
  intros Hh. split; [|split; [|split]].
  - apply is_zero_double in Hh.
    unfold numerical_derivative, pure_scalar, bind, call_scalar, function_scalar.
    by rewrite !truediv_nonzero.
  - by apply gradient_function_kind.
  - unfold gradient_descent.
    do 4 (apply bind_ext; intros ? ?).
    apply bind_ext_l, for_each_ext. intros i hist ?.
    apply bind_ext_l. by apply gradient_function_kind.
  - apply numerical_gradient_kind.
Qed.

(** X21.  With a step that is zero and a function that returns Python
    floats, [gradient_function] on a point with at least one element
    evaluates the function twice, at [x + h e_0] and [x - h e_0], and then
    the division by [2h] raises [ZeroDivisionError]; the point it was given
    is untouched.  (With [numpy.float64] results it returns.) *)
Theorem gradient_function_zero_step
    (fm : ndarray -> float) (x : loc) (h : float) s a :
  Num.is_zero h = true ->
  heap s !! x = Some a -> zero_dim a = false -> size a <> 0 ->
  let d := as_float (buf a) in
  (gradient_function (function_objective PythonFloat fm) x (Some h) s).1 =
    Raise ZeroDivisionError /\
  trace (gradient_function (function_objective PythonFloat fm) x (Some h) s).2 =
    trace s ++ evaluations_at fm d h 0 /\
  heap (gradient_function (function_objective PythonFloat fm) x (Some h) s).2 !! x =
    Some a /\
  exists g, (gradient_function (pure_objective fm) x (Some h) s).1 = Ret g.
Proof.
  intros Hh Hx Hdim Hsz d.
  assert (Hlt : x < length (heap s)) by by eapply lookup_lt_Some.
  assert (Hxc : np_array_float a = vector d)
    by (unfold np_array_float, vector; by rewrite Hdim).
  assert (Hn : exists n, length d = S n).
  { unfold size in Hsz. subst d. destruct (buf a) as [l|l]; simpl in *;
      rewrite ?length_map; destruct l; simpl in *; [done | eauto | done | eauto]. }
  destruct Hn as [n Hn].
  split; [|split; [|split]].
  4: { destruct (gradient_function_pure_run fm x (Some h) s a Hx Hdim) as [temps ->].
       by eexists. }
  all: enough (Hwp : wp (gradient_function (function_objective PythonFloat fm) x (Some h))
    (fun _ _ => False)
    (fun e t => e = ZeroDivisionError /\
                trace t = trace s ++ evaluations_at fm d h 0 /\
                heap t !! x = Some a) s);
    [ unfold wp in Hwp;
      destruct (gradient_function (function_objective PythonFloat fm) x (Some h) s)
        as [[g|e] t]; [done | by destruct Hwp as (-> & ? & ?)] | ].
  all: unfold gradient_function; cbn [default from_option id];
    apply wp_bind; (eapply wp_load; [done|]);
    apply wp_bind, wp_alloc; rewrite Hxc;
    apply wp_bind; (eapply wp_load; [apply lookup_snoc_last|]);
    apply wp_bind, wp_alloc; cbn [heap world trace];
    rewrite length_app, Nat.add_1_r, <- app_assoc; cbn [app];
    apply wp_bind; (eapply wp_len; [apply layout_lookup_x|]); cbn [zero_dim vector];
    change (size (vector d)) with (length d); rewrite Hn; cbn [seq for_each];
    rewrite row_np_eye_times by lia;
    do 2 apply wp_bind;
    apply wp_bind; (eapply wp_load; [apply layout_lookup_x|]);
    apply wp_bind, wp_alloc; cbn [heap world trace];
    apply wp_bind; (eapply wp_call_function; [apply lookup_snoc_last|]);
    cbn [heap world trace]; rewrite layout_snoc;
    apply wp_bind; (eapply wp_load; [apply layout_lookup_x|]);
    apply wp_bind, wp_alloc; cbn [heap world trace];
    apply wp_bind; (eapply wp_call_function; [apply lookup_snoc_last|]);
    cbn [heap world trace]; rewrite layout_snoc;
    apply wp_bind;
    (apply wp_truediv_zero; [done | by apply is_zero_double_zero |]);
    (split; [done|]); cbn [heap trace];
    (split; [by rewrite <- app_assoc, <- Hn | by apply lookup_app_l_Some]).
Qed.

End MoreKinds.

(** ** Instances of the further properties *)

Lemma numerical_derivative_zero_step_witness :
  Num.is_zero (-0)%float = true /\
  (numerical_derivative (function_scalar PythonFloat square) 3%float
     (Some (-0)%float) (mk_state [] tt [])).1 = Raise ZeroDivisionError /\
  (numerical_derivative (function_scalar NumpyFloat64 square) 3%float
     (Some (-0)%float) (mk_state [] tt [])).1 = Ret nan.
Proof.
  split; [reflexivity|].
  destruct (numerical_derivative_zero_step square 3%float (-0)%float
              (mk_state [] tt []) eq_refl) as (Hpython & Hnumpy & _).
  split; [rewrite Hpython | rewrite Hnumpy]; reflexivity.
Defined.

Lemma numerical_derivative_any_objective_witness :
  heap (numerical_derivative (fun x w => (Raise (ObjectiveError 7), w))
          3%float None (store_of (vector [1%float]) tt)).2 =
    [vector [1%float]].
Proof.
  destruct (numerical_derivative_any_objective
              (fun x w => (Raise (ObjectiveError 7), w))
              3%float None (store_of (vector [1%float]) tt)) as [Hheap _].
  exact Hheap.
Defined.

Lemma gradient_function_zero_dim_witness :
  (gradient_function failing 0 None
     (store_of (mk_ndarray true (Float64 [0%float])) tt)).1 = Raise TypeError.
Proof.
  apply (gradient_function_zero_dim failing 0 None
           (store_of (mk_ndarray true (Float64 [0%float])) tt)
           (mk_ndarray true (Float64 [0%float]))); reflexivity.
Defined.

Lemma gradient_function_coerces_witness :
  exists g1 t1 g2 t2 G,
    gradient_function (pure_objective sum_of_squares) 0 None
      (store_of (int_vector [3%Z; 4%Z]) tt) = (Ret g1, t1) /\
    gradient_function (pure_objective sum_of_squares) 0 None
      (store_of (vector [3%float; 4%float]) tt) = (Ret g2, t2) /\
    heap t1 !! g1 = Some (vector G) /\ heap t2 !! g2 = Some (vector G).
Proof.
  destruct (gradient_function_coerces sum_of_squares 0 0 None
              (store_of (int_vector [3%Z; 4%Z]) tt)
              (store_of (vector [3%float; 4%float]) tt)
              (int_vector [3%Z; 4%Z]))
    as (g1 & t1 & g2 & t2 & G & evs & H1 & H2 & Hg1 & Hg2 & _).
  - reflexivity.
  - vm_compute. reflexivity.
  - reflexivity.
  - exists g1, t1, g2, t2, G. repeat split; assumption.
Defined.

Lemma gradient_function_returning_objective_witness :
  exists grad s' evs,
    gradient_function
      (fun b n => (Ret (mk_number PythonFloat (sum_of_squares b)), np_zeros_like b, S n))
      0 (Some 1e-5%float) (store_of (vector [3%float; 4%float]) 0) =
      (Ret grad, s') /\
    heap s' !! 0 = Some (vector [3%float; 4%float]) /\
    trace s' = evs /\ length evs = 4.
Proof.
  destruct (gradient_function_returning_objective
              (fun b n =>
                 (Ret (mk_number PythonFloat (sum_of_squares b)), np_zeros_like b, S n))
              0 1e-5%float (store_of (vector [3%float; 4%float]) 0)
              (vector [3%float; 4%float]))
    as (grad & s' & G & evs & Hrun & _ & _ & Hx & Htr & Hlen & _).
  - intros b w. eexists _, _, _. reflexivity.
  - reflexivity.
  - reflexivity.
  - reflexivity.
  - exists grad, s', evs. split; [exact Hrun|]. split; [exact Hx|].
    split; [exact Htr | exact Hlen].
Defined.

Lemma routines_return_fresh_objects_witness :
  heap (gradient_function fails_second 0 None
          (store_of (vector [3%float; 4%float]) 0)).2 !! 0 =
    Some (vector [3%float; 4%float]) /\
  heap (gradient_descent fails_second 0 None None
          (store_of (vector [3%float; 4%float]) 0)).2 !! 0 =
    Some (vector [3%float; 4%float]).
Proof.
  destruct (routines_return_fresh_objects fails_second 0 None None None
              (store_of (vector [3%float; 4%float]) 0))
    as (Hkeep & _).
  apply (Hkeep 0). simpl. lia.
Defined.

Lemma gradient_descent_no_iteration_witness :
  gradient_descent failing 0 None (Some 0)
    (store_of (mk_ndarray true (Int64 [3%Z])) tt) =
    (Ret (1, [2]),
     mk_state [ mk_ndarray true (Int64 [3%Z]);
                mk_ndarray true (Float64 [3%float]);
                mk_ndarray true (Float64 [3%float]) ] tt []).
Proof.
  rewrite (gradient_descent_no_iteration failing 0 None
             (store_of (mk_ndarray true (Int64 [3%Z])) tt)
             (mk_ndarray true (Int64 [3%Z])) eq_refl).
  vm_compute. reflexivity.
Defined.

Lemma gradient_descent_zero_dim_raises_witness :
  (gradient_descent failing 0 None (Some 5)
     (store_of (mk_ndarray true (Float64 [0%float])) tt)).1 = Raise TypeError.
Proof.
  apply (gradient_descent_zero_dim_raises failing 0 None 5
           (store_of (mk_ndarray true (Float64 [0%float])) tt)
           (mk_ndarray true (Float64 [0%float]))); [reflexivity | reflexivity | lia].
Defined.

Lemma gradient_descent_cost_witness :
  exists evs,
    trace (gradient_descent (pure_objective sum_of_squares) 0 None (Some 3)
             (store_of (vector [3%float; 4%float]) tt)).2 = evs /\
    length evs = 12.
Proof.
  destruct (gradient_descent_cost sum_of_squares 0 None (Some 3)
              (store_of (vector [3%float; 4%float]) tt)
              (vector [3%float; 4%float]) eq_refl eq_refl)
    as (evs & Htr & Hlen).
  exists evs. split; [exact Htr | exact Hlen].
Defined.

Lemma gradient_descent_constant_objective_witness :
  exists x hist s',
    gradient_descent (pure_objective (fun _ => 1%float)) 0 None (Some 2)
      (store_of (vector [3%float; 4%float]) tt) = (Ret (x, hist), s') /\
    heap s' !! x = Some (vector [3%float; 4%float]) /\
    length hist = 3.
Proof.
  destruct (gradient_descent_constant_objective 1%float 0 None (Some 2)
              (store_of (vector [3%float; 4%float]) tt)
              (vector [3%float; 4%float]) eq_refl eq_refl eq_refl eq_refl)
    as (_ & x & hist & s' & Hrun & Hx & Hlen & _).
  exists x, hist, s'. split; [exact Hrun|]. split; [exact Hx | exact Hlen].
Defined.

Lemma numerical_gradient_empty_array_witness :
  (numerical_gradient failing 0 (store_of (vector []) tt)).1 = Raise ValueError.
Proof.
  apply (numerical_gradient_empty_array failing 0 None
           (store_of (vector []) tt) (vector [])); reflexivity.
Defined.

Lemma numerical_gradient_central_difference_witness :
  exists g s' G,
    numerical_gradient (pure_objective sum_of_squares) 0
      (store_of (mk_ndarray true (Float64 [3%float])) tt) = (Ret g, s') /\
    heap s' !! g = Some (mk_ndarray true (Float64 G)) /\
    length G = 1.
Proof.
  destruct (numerical_gradient_central_difference sum_of_squares 0
              (store_of (mk_ndarray true (Float64 [3%float])) tt)
              true [3%float] eq_refl)
    as (g & s' & G & Hrun & _ & _ & Hg & Hlen & _).
  - discriminate.
  - exists g, s', G. split; [exact Hrun|]. split; [exact Hg | exact Hlen].
Defined.


Lemma numerical_gradient_interrupted_witness :
  interrupted_at 0 false [3%float; 4%float] (ObjectiveError 7)
    (numerical_gradient failing 0 (store_of (vector [3%float; 4%float]) tt)).2.
Proof.
  assert (Hf : forall b w, exists r w', failing b w = (r, b, w')).
  { intros b w. eexists _, _. reflexivity. }
  assert (Hne : [3%float; 4%float] <> []) by discriminate.
  exact (numerical_gradient_interrupted failing 0
           (store_of (vector [3%float; 4%float]) tt)
           false [3%float; 4%float] Hf eq_refl Hne).
Defined.

Lemma step_function_zero_one_witness :
  exists G,
    step_function 0 (store_of (vector [(-1)%float; 0%float; 2%float; nan]) tt) =
      (Ret 1,
       mk_state [vector [(-1)%float; 0%float; 2%float; nan]; int_vector G] tt []) /\
    G !! 2 = Some 1%Z /\ G !! 3 = Some 0%Z.
Proof.
  destruct (step_function_zero_one 0
              (store_of (vector [(-1)%float; 0%float; 2%float; nan]) tt)
              (vector [(-1)%float; 0%float; 2%float; nan]) eq_refl)
    as (G & Hrun & _ & _ & Hpos & Hnan).
  exists G. split; [exact Hrun|]. split.
  - exact (Hpos 2 (F64 2%float) eq_refl).
  - exact (Hnan 3 nan eq_refl (or_introl eq_refl)).
Defined.

Lemma relu_function_clamps_witness :
  exists b,
    relu_function 0 (store_of (vector [(-1)%float; 2%float]) tt) =
      (Ret 1, mk_state [vector [(-1)%float; 2%float]; b] tt []) /\
    size b = 2 /\
    exists r, getitem b 1 = Some (F64 r) /\ r = 2%float.
Proof.
  destruct (relu_function_clamps 0
              (store_of (vector [(-1)%float; 2%float]) tt)
              (vector [(-1)%float; 2%float]) eq_refl)
    as (b & Hrun & _ & Hsz & Hfl & _).
  exists b. split; [exact Hrun|]. split; [exact Hsz|].
  destruct (Hfl 1 2%float eq_refl) as (r & Hr & _ & Hkeep & _).
  exists r. split; [exact Hr | exact (Hkeep eq_refl)].
Defined.

Lemma relu_function_idempotent_witness :
  exists y1 s1 y2 s2 b,
    relu_function 0 (store_of (vector [(-1)%float; 2%float]) tt) = (Ret y1, s1) /\
    relu_function y1 s1 = (Ret y2, s2) /\
    heap s2 !! y1 = Some b /\ heap s2 !! y2 = Some b.
Proof.
  destruct (relu_function_idempotent 0
              (store_of (vector [(-1)%float; 2%float]) tt)
              (vector [(-1)%float; 2%float]) eq_refl)
    as (y1 & s1 & y2 & s2 & b & H1 & H2 & _ & Hb1 & Hb2).
  exists y1, s1, y2, s2, b. repeat split; assumption.
Defined.

Lemma step_function_after_relu_witness :
  exists y s1 z1 s2 z2 s3 b,
    relu_function 0 (store_of (int_vector [(-1)%Z; 2%Z]) tt) = (Ret y, s1) /\
    step_function y s1 = (Ret z1, s2) /\
    step_function 0 (store_of (int_vector [(-1)%Z; 2%Z]) tt) = (Ret z2, s3) /\
    heap s2 !! z1 = Some b /\ heap s3 !! z2 = Some b.
Proof.
  exact (step_function_after_relu 0
           (store_of (int_vector [(-1)%Z; 2%Z]) tt)
           (int_vector [(-1)%Z; 2%Z]) eq_refl).
Defined.

Lemma numerical_gradient_failure_propagates_witness :
  (numerical_gradient fails_second 0
     (store_of (vector [3%float; 4%float]) 0)).1 = Raise (ObjectiveError 7).
Proof.
  pose (up := vector (moved_up [3%float; 4%float] 1e-4%float 0)).
  pose (down := vector (moved_down [3%float; 4%float] 1e-4%float 0)).
  pose (ev := mk_evaluation (AArray down) (Raise (ObjectiveError 7))).
  pose (evs := [mk_evaluation (AArray up) (Ret (sum_of_squares up)); ev]).
  apply (numerical_gradient_failure_propagates fails_second 0
           (store_of (vector [3%float; 4%float]) 0) evs ev (ObjectiveError 7)).
  - vm_compute. reflexivity.
  - apply list_elem_of_further, list_elem_of_here.
  - reflexivity.
Defined.

Lemma result_kind_irrelevant_witness :
  gradient_function (function_objective PythonFloat sum_of_squares) 0 None
    (store_of (vector [3%float; 4%float]) tt) =
  gradient_function (pure_objective sum_of_squares) 0 None
    (store_of (vector [3%float; 4%float]) tt).
Proof.
  destruct (result_kind_irrelevant PythonFloat square sum_of_squares 3%float 0
              None None None (store_of (vector [3%float; 4%float]) tt) eq_refl)
    as (_ & Hgradient & _).
  exact Hgradient.
Defined.

Lemma gradient_function_zero_step_witness :
  (gradient_function (function_objective PythonFloat sum_of_squares) 0
     (Some 0%float) (store_of (vector [3%float; 4%float]) tt)).1 =
    Raise ZeroDivisionError.
Proof.
  apply (gradient_function_zero_step sum_of_squares 0 0%float
           (store_of (vector [3%float; 4%float]) tt)
           (vector [3%float; 4%float]));
    [reflexivity | reflexivity | reflexivity | vm_compute; lia].
Defined.
